(** * Verification of the Gitea credential check of [app.py]

    The development embeds the two functions of [app.py] that decide an
    authentication request, [check_gitea_pbkdf2] and [check_pass], together
    with the library behaviour they rely on:

    - Python [str] values, [str.strip], [bytes(s, encoding='utf-8')] and
      [binascii.hexlify];
    - [hashlib.pbkdf2_hmac] with digest ['sha256'] (FIPS 180-4, RFC 2104,
      RFC 8018);
    - the [sqlite3] connection and cursor, as a state-and-exception monad
      over the [user] relation;
    - the [logging] calls, as an append-only list of records.
*)

From Stdlib Require Import ZArith NArith List Bool Lia.
From Stdlib Require Import Ascii String Eqdep_dec.
From Stdlib.Strings Require Import Byte.
Import ListNotations.

(* ================================================================== *)
(** * Bytes *)
(* ================================================================== *)

(** A Python [bytes] object. *)
Definition bytes := list byte.

Definition byte_to_Z (b : byte) : Z := Z.of_N (Byte.to_N b).

(** The byte holding the low eight bits of [x]. *)
Definition byte_of_Z (x : Z) : byte :=
  match Byte.of_N (Z.to_N (x mod 256)) with
  | Some b => b
  | None => x00
  end.

Definition xor_byte (a b : byte) : byte :=
  byte_of_Z (Z.lxor (byte_to_Z a) (byte_to_Z b)).

(** Bytewise exclusive or of two equally long strings. *)
Fixpoint xor_bytes (a b : bytes) : bytes :=
  match a, b with
  | x :: a', y :: b' => xor_byte x y :: xor_bytes a' b'
  | _, _ => []
  end.

(* ================================================================== *)
(** * SHA-256 (FIPS 180-4), the digest named ['sha256'] in [hashlib] *)
(* ================================================================== *)

Module SHA256.
Local Open Scope Z_scope.

(** 32-bit words are integers in [0, 2^32); every operation that can
    leave the range wraps around explicitly. *)
Definition wrap32 (x : Z) : Z := Z.land x 0xFFFFFFFF.
Definition add32 (x y : Z) : Z := wrap32 (x + y).
Definition not32 (x : Z) : Z := Z.lxor x 0xFFFFFFFF.
Definition rotr (n x : Z) : Z :=
  Z.lor (Z.shiftr x n) (wrap32 (Z.shiftl x (32 - n))).
Definition shr (n x : Z) : Z := Z.shiftr x n.

Definition Ch (x y z : Z) : Z := Z.lxor (Z.land x y) (Z.land (not32 x) z).
Definition Maj (x y z : Z) : Z :=
  Z.lxor (Z.lxor (Z.land x y) (Z.land x z)) (Z.land y z).
Definition Sigma0 (x : Z) : Z := Z.lxor (Z.lxor (rotr 2 x) (rotr 13 x)) (rotr 22 x).
Definition Sigma1 (x : Z) : Z := Z.lxor (Z.lxor (rotr 6 x) (rotr 11 x)) (rotr 25 x).
Definition sigma0 (x : Z) : Z := Z.lxor (Z.lxor (rotr 7 x) (rotr 18 x)) (shr 3 x).
Definition sigma1 (x : Z) : Z := Z.lxor (Z.lxor (rotr 17 x) (rotr 19 x)) (shr 10 x).

(** The first sixty-four primes. *)
Definition primes : list Z :=
  [ 2; 3; 5; 7; 11; 13; 17; 19; 23; 29; 31; 37; 41; 43; 47; 53;
    59; 61; 67; 71; 73; 79; 83; 89; 97; 101; 103; 107; 109; 113; 127; 131;
    137; 139; 149; 151; 157; 163; 167; 173; 179; 181; 191; 193; 197; 199;
    211; 223; 227; 229; 233; 239; 241; 251; 257; 263; 269; 271; 277; 281;
    283; 293; 307; 311 ].

(** Integer cube root, one bit at a time from bit [i - 1] down. *)
Fixpoint cbrt_bits (i : nat) (n r : Z) : Z :=
  match i with
  | O => r
  | S i' =>
      let c := r + 2 ^ Z.of_nat i' in
      cbrt_bits i' n (if c * c * c <=? n then c else r)
  end.

Definition cbrt (n : Z) : Z := cbrt_bits 40 n 0.

(** The round constants: the first 32 bits of the fractional parts of
    the cube roots of the primes. *)
Definition K : list Z :=
  Eval vm_compute in map (fun p => wrap32 (cbrt (p * 2 ^ 96))) primes.

(** The eight working variables / the intermediate hash value. *)
Record state := State
  { sa : Z; sb : Z; sc : Z; sd : Z; se : Z; sf : Z; sg : Z; sh : Z }.

(** The initial hash value: the first 32 bits of the fractional parts of
    the square roots of the first eight primes. *)
Definition sqrt_frac (p : Z) : Z := wrap32 (Z.sqrt (p * 2 ^ 64)).

Definition H0 : state :=
  Eval vm_compute in
    State (sqrt_frac 2) (sqrt_frac 3) (sqrt_frac 5) (sqrt_frac 7)
          (sqrt_frac 11) (sqrt_frac 13) (sqrt_frac 17) (sqrt_frac 19).

(** Big-endian packing of four bytes into a word, and back. *)
Definition word_of_bytes (b3 b2 b1 b0 : byte) : Z :=
  Z.lor (Z.shiftl (byte_to_Z b3) 24)
    (Z.lor (Z.shiftl (byte_to_Z b2) 16)
       (Z.lor (Z.shiftl (byte_to_Z b1) 8) (byte_to_Z b0))).

Definition bytes_of_word (w : Z) : bytes :=
  [ byte_of_Z (Z.shiftr w 24); byte_of_Z (Z.shiftr w 16);
    byte_of_Z (Z.shiftr w 8); byte_of_Z w ].

Fixpoint words_of_bytes (l : bytes) : list Z :=
  match l with
  | b3 :: b2 :: b1 :: b0 :: l' => word_of_bytes b3 b2 b1 b0 :: words_of_bytes l'
  | _ => []
  end.

(** Message schedule.  [rev_w] holds the words computed so far, the most
    recent first; each step appends
    [sigma1 W(t-2) + W(t-7) + sigma0 W(t-15) + W(t-16)]. *)
Fixpoint extend (n : nat) (rev_w : list Z) : list Z :=
  match n with
  | O => rev_w
  | S n' =>
      let w := add32 (add32 (sigma1 (nth 1 rev_w 0)) (nth 6 rev_w 0))
                     (add32 (sigma0 (nth 14 rev_w 0)) (nth 15 rev_w 0)) in
      extend n' (w :: rev_w)
  end.

Definition schedule (block : bytes) : list Z :=
  rev (extend 48 (rev (words_of_bytes block))).

Definition round (s : state) (kw : Z * Z) : state :=
  let (k, w) := kw in
  let t1 := add32 (add32 (add32 (sh s) (Sigma1 (se s)))
                         (add32 (Ch (se s) (sf s) (sg s)) k)) w in
  let t2 := add32 (Sigma0 (sa s)) (Maj (sa s) (sb s) (sc s)) in
  State (add32 t1 t2) (sa s) (sb s) (sc s) (add32 (sd s) t1) (se s) (sf s) (sg s).

Definition compress (h : state) (block : bytes) : state :=
  let s := fold_left round (combine K (schedule block)) h in
  State (add32 (sa h) (sa s)) (add32 (sb h) (sb s))
        (add32 (sc h) (sc s)) (add32 (sd h) (sd s))
        (add32 (se h) (se s)) (add32 (sf h) (sf s))
        (add32 (sg h) (sg s)) (add32 (sh h) (sh s)).

(** Padding: a [1] bit, zero bits up to 56 modulo 64 bytes, then the bit
    length of the message as a 64-bit big-endian integer. *)
Definition pad (msg : bytes) : bytes :=
  let len := Z.of_nat (List.length msg) in
  let zeros := Z.to_nat ((55 - len) mod 64) in
  let bits := 8 * len in
  msg ++ [x80] ++ repeat x00 zeros
      ++ bytes_of_word (Z.shiftr bits 32) ++ bytes_of_word bits.

Fixpoint blocks (n : nat) (l : bytes) : list bytes :=
  match n with
  | O => []
  | S n' => firstn 64 l :: blocks n' (skipn 64 l)
  end.

Definition serialize (s : state) : bytes :=
  bytes_of_word (sa s) ++ bytes_of_word (sb s) ++ bytes_of_word (sc s)
  ++ bytes_of_word (sd s) ++ bytes_of_word (se s) ++ bytes_of_word (sf s)
  ++ bytes_of_word (sg s) ++ bytes_of_word (sh s).

Definition digest_size : nat := 32.
Definition block_size : nat := 64.

Definition digest (msg : bytes) : bytes :=
  let p := pad msg in
  serialize (fold_left compress (blocks (List.length p / 64) p) H0).

End SHA256.

(* ================================================================== *)
(** * HMAC (RFC 2104) over SHA-256 *)
(* ================================================================== *)

Definition hmac_key_block (key : bytes) : bytes :=
  let k := if Nat.ltb SHA256.block_size (List.length key)
           then SHA256.digest key else key in
  k ++ repeat x00 (SHA256.block_size - List.length k).

Definition hmac_sha256 (key msg : bytes) : bytes :=
  let kb := hmac_key_block key in
  let ipad := map (xor_byte x36) kb in
  let opad := map (xor_byte x5c) kb in
  SHA256.digest (opad ++ SHA256.digest (ipad ++ msg)).

(* ================================================================== *)
(** * PBKDF2 (RFC 8018, section 5.2): [hashlib.pbkdf2_hmac] *)
(* ================================================================== *)

(** One step of the iteration [U_j = PRF(P, U_(j-1))], accumulating the
    exclusive or of all [U_j] in the second component. *)
Definition pbkdf2_step (password : bytes) (ut : bytes * bytes) : bytes * bytes :=
  let u := hmac_sha256 password (fst ut) in (u, xor_bytes (snd ut) u).

(** [F(P, S, c, i) = U_1 xor U_2 xor ... xor U_c]. *)
Definition pbkdf2_F (password salt : bytes) (c : N) (i : Z) : bytes :=
  let u1 := hmac_sha256 password (salt ++ SHA256.bytes_of_word i) in
  snd (N.iter (N.pred c) (pbkdf2_step password) (u1, u1)).

Fixpoint pbkdf2_blocks (password salt : bytes) (c : N) (i : Z) (l : nat) : bytes :=
  match l with
  | O => []
  | S l' => pbkdf2_F password salt c i ++ pbkdf2_blocks password salt c (i + 1) l'
  end.

(** The digests [hashlib] is asked for by name; [app.py] names one. *)
Inductive hash_name := sha256.

(** [hashlib.pbkdf2_hmac(hash_name, password, salt, iterations, dklen)]:
    the first [dklen] bytes of [T_1 || T_2 || ... || T_l] with
    [l = ceil(dklen / hLen)].  The call raises [ValueError] for
    [iterations < 1] or [dklen < 1]; the one call site passes the
    constants 10000 and 50. *)
Definition pbkdf2_hmac (h : hash_name) (password salt : bytes)
    (iterations : N) (dklen : nat) : bytes :=
  match h with
  | sha256 =>
      let l := (dklen + SHA256.digest_size - 1) / SHA256.digest_size in
      firstn dklen (pbkdf2_blocks password salt iterations 1 l)
  end.

(* ================================================================== *)
(** * Python text *)
(* ================================================================== *)

(** A [str] is a sequence of code points.  Every [str] this program
    handles was decoded from UTF-8 (the request header by the web
    framework, the TEXT columns by [sqlite3]), so its elements are Unicode
    scalar values: at most U+10FFFF and outside the surrogate range. *)
Definition is_scalar (n : N) : bool :=
  ((n <? 0xD800) || ((0xDFFF <? n) && (n <? 0x110000)))%N.

Record uchar := UChar { code : N; code_ok : is_scalar code = true }.

Definition str := list uchar.

(** [a == b] on characters and on [str]. *)
Definition uchar_eqb (a b : uchar) : bool := N.eqb (code a) (code b).

Fixpoint str_eqb (a b : str) : bool :=
  match a, b with
  | [], [] => true
  | x :: a', y :: b' => uchar_eqb x y && str_eqb a' b'
  | _, _ => false
  end.

(** Code points below U+0100 are scalar values. *)
Definition chr_ok (a : ascii) : is_scalar (N_of_ascii a) = true.
Proof.
  unfold is_scalar. apply orb_true_iff. left. apply N.ltb_lt.
  pose proof (N_ascii_bounded a). lia.
Qed.

(** The character with the code point of [a] (below U+0100). *)
Definition chr (a : ascii) : uchar := UChar (N_of_ascii a) (chr_ok a).

(** A literal of the source text. *)
Definition lit (x : string) : str := map chr (list_ascii_of_string x).

(** [str.isspace] on one character ([Py_UNICODE_ISSPACE]). *)
Definition isspace (c : uchar) : bool :=
  let n := code c in
  (((0x09 <=? n) && (n <=? 0x0D)) || ((0x1C <=? n) && (n <=? 0x20))
   || (n =? 0x85) || (n =? 0xA0) || (n =? 0x1680)
   || ((0x2000 <=? n) && (n <=? 0x200A))
   || (n =? 0x2028) || (n =? 0x2029) || (n =? 0x202F) || (n =? 0x205F)
   || (n =? 0x3000))%N.

(** [s.strip()]: drop the whitespace at both ends. *)
Fixpoint lstrip (s : str) : str :=
  match s with
  | c :: s' => if isspace c then lstrip s' else s
  | [] => []
  end.

Definition rstrip (s : str) : str := rev (lstrip (rev s)).

Definition strip (s : str) : str := rstrip (lstrip s).

(** [bytes(s, encoding='utf-8')]. *)
Definition utf8_char (c : uchar) : bytes :=
  let n := Z.of_N (code c) in
  if (n <? 0x80)%Z then [byte_of_Z n]
  else if (n <? 0x800)%Z then
    [ byte_of_Z (Z.lor 0xC0 (Z.shiftr n 6));
      byte_of_Z (Z.lor 0x80 (Z.land n 0x3F)) ]
  else if (n <? 0x10000)%Z then
    [ byte_of_Z (Z.lor 0xE0 (Z.shiftr n 12));
      byte_of_Z (Z.lor 0x80 (Z.land (Z.shiftr n 6) 0x3F));
      byte_of_Z (Z.lor 0x80 (Z.land n 0x3F)) ]
  else
    [ byte_of_Z (Z.lor 0xF0 (Z.shiftr n 18));
      byte_of_Z (Z.lor 0x80 (Z.land (Z.shiftr n 12) 0x3F));
      byte_of_Z (Z.lor 0x80 (Z.land (Z.shiftr n 6) 0x3F));
      byte_of_Z (Z.lor 0x80 (Z.land n 0x3F)) ].

Definition encode_utf8 (s : str) : bytes := flat_map utf8_char s.

(** [binascii.hexlify]: two digits of ["0123456789abcdef"] per byte, the
    high nibble first. *)
Definition hexdigits : bytes :=
  [ x30; x31; x32; x33; x34; x35; x36; x37; x38; x39;
    x61; x62; x63; x64; x65; x66 ].

Definition hexlify (b : bytes) : bytes :=
  flat_map (fun x =>
    [ nth (Z.to_nat (Z.shiftr (byte_to_Z x) 4)) hexdigits x30;
      nth (Z.to_nat (Z.land (byte_to_Z x) 0xF)) hexdigits x30 ]) b.

(** [b.decode('ascii')]: fails on a byte above 0x7F. *)
Fixpoint decode_ascii (b : bytes) : option str :=
  match b with
  | [] => Some []
  | x :: b' =>
      if (Byte.to_N x <? 0x80)%N then
        match decode_ascii b' with
        | Some s => Some (chr (ascii_of_byte x) :: s)
        | None => None
        end
      else None
  end.

(* ================================================================== *)
(** * The store, the log and the monad of effects *)
(* ================================================================== *)

(** A row of the [user] relation as [dict_factory] returns it, with the
    columns the program reads.  The fields carry the column names. *)
Module user.
Record row := Row
  { lower_name : str;
    name : str;
    email : str;
    is_active : Z;
    type : Z;
    prohibit_login : Z;
    passwd_hash_algo : str;
    passwd : str;
    salt : str }.
End user.

(** The statements a connection accepts.  A [WHERE] clause is the
    predicate it denotes. *)
Inductive statement :=
| SELECT (where_ : user.row -> bool)
| INSERT (r : user.row)
| UPDATE (set : user.row -> user.row) (where_ : user.row -> bool)
| DELETE (where_ : user.row -> bool).

Definition read_only (st : statement) : bool :=
  match st with SELECT _ => true | _ => false end.

(** The database behind the connection: the rows of [user] in the order
    in which the engine enumerates them, or a condition in which every
    statement fails with an [sqlite3.Error] (file missing or locked, no
    such table, I/O error), identified here by its result code. *)
Inductive database :=
| Available (rows : list user.row)
| Unavailable (errcode : Z).

Inductive exn :=
| sqlite3_Error (errcode : Z)
| UnicodeDecodeError.

Inductive level := DEBUG | INFO | WARNING.

Record world := World
  { db : database;
    journal : list statement;   (* statements submitted, oldest first *)
    open_cursors : nat;
    log : list (level * str) }. (* records handed to [logger], oldest first *)

Inductive outcome (A : Type) :=
| Return (a : A)
| Raise (e : exn).
Arguments Return {A} a.
Arguments Raise {A} e.

Definition M (A : Type) : Type := world -> outcome A * world.

Definition ret {A} (a : A) : M A := fun w => (Return a, w).
Definition raise {A} (e : exn) : M A := fun w => (Raise e, w).
Definition bind {A B} (m : M A) (k : A -> M B) : M B :=
  fun w => match m w with
           | (Return a, w') => k a w'
           | (Raise e, w') => (Raise e, w')
           end.

Notation "x <- m ;; k" := (bind m (fun x => k))
  (at level 61, m at next level, right associativity).
Notation "m ;; k" := (bind m (fun _ => k))
  (at level 61, right associativity).

(** [try: body finally: handler].  The handler runs however the body
    ends; the body's result or exception stands unless the handler itself
    raises. *)
Definition try_finally {A} (body : M A) (handler : M unit) : M A :=
  fun w => match body w with
           | (r, w') =>
               match handler w' with
               | (Return _, w'') => (r, w'')
               | (Raise e, w'') => (Raise e, w'')
               end
           end.

Definition logger_log (l : level) (msg : str) : M unit :=
  fun w => (Return tt,
            World (db w) (journal w) (open_cursors w) (log w ++ [(l, msg)])).

Definition logger_debug := logger_log DEBUG.
Definition logger_info := logger_log INFO.
Definition logger_warning := logger_log WARNING.

(** A cursor holds the rows of its last statement not fetched yet. *)
Record cursor := Cursor { pending : list user.row }.

Definition connection_cursor : M cursor :=
  fun w => (Return (Cursor []),
            World (db w) (journal w) (S (open_cursors w)) (log w)).

(** What a statement does to the rows, and the rows it yields. *)
Definition apply_statement (st : statement) (rows : list user.row)
  : list user.row * list user.row :=
  match st with
  | SELECT p => (rows, filter p rows)
  | INSERT r => (rows ++ [r], [])
  | UPDATE f p => (map (fun r => if p r then f r else r) rows, [])
  | DELETE p => (filter (fun r => negb (p r)) rows, [])
  end.

Definition cursor_execute (c : cursor) (st : statement) : M cursor :=
  fun w =>
    match db w with
    | Available rows =>
        let (rows', result) := apply_statement st rows in
        (Return (Cursor result),
         World (Available rows') (journal w ++ [st]) (open_cursors w) (log w))
    | Unavailable e =>
        (Raise (sqlite3_Error e),
         World (db w) (journal w ++ [st]) (open_cursors w) (log w))
    end.

(** [cursor.fetchone()]: the next row, or [None] when none is left. *)
Definition cursor_fetchone (c : cursor) : M (option user.row * cursor) :=
  match pending c with
  | [] => ret (None, c)
  | r :: rest => ret (Some r, Cursor rest)
  end.

Definition cursor_close (c : cursor) : M unit :=
  fun w => (Return tt,
            World (db w) (journal w) (pred (open_cursors w)) (log w)).

(** Lifting of a decoding that may fail. *)
Definition decode (b : bytes) : M str :=
  match decode_ascii b with
  | Some s => ret s
  | None => raise UnicodeDecodeError
  end.

(* ================================================================== *)
(** * The program *)
(* ================================================================== *)

(** The [WHERE] clause of the query of [check_pass], with [:un] bound to
    [un].  TEXT columns compare with the BINARY collation, that is, by
    equality of their code points. *)
Definition user_query (un : str) (r : user.row) : bool :=
  (str_eqb (user.lower_name r) un || str_eqb (user.name r) un
   || str_eqb (user.email r) un)
  && (user.is_active r =? 1)%Z && (user.type r =? 0)%Z
  && (user.prohibit_login r =? 0)%Z.

Definition check_gitea_pbkdf2 (passwd : str) (row : user.row) (debug : bool)
  : M bool :=
  let hashed :=
    pbkdf2_hmac sha256 (encode_utf8 passwd) (encode_utf8 (user.salt row))
                10000 50 in
  (if debug then
     h <- decode (hexlify hashed) ;;
     logger_debug (lit "hash result: " ++ h ++ lit " / expected: "
                   ++ user.passwd row)
   else ret tt) ;;
  h <- decode (hexlify hashed) ;;
  ret (str_eqb h (user.passwd row)).

(** [check_pass(connection, username, passwd, debug)]; the connection is
    the handle on the database of the world the computation runs in. *)
Definition check_pass (username passwd : str) (debug : bool) : M bool :=
  logger_info (lit "Handling auth request for " ++ username) ;;
  cursor <- connection_cursor ;;
  try_finally
    (cursor <- cursor_execute cursor (SELECT (user_query (strip username))) ;;
     fetched <- cursor_fetchone cursor ;;
     match fst fetched with
     | Some result =>
         logger_info (lit "Found matching user in database.") ;;
         if str_eqb (user.passwd_hash_algo result) (lit "pbkdf2") then
           logger_info (lit "Attempt to hash password.") ;;
           ok <- check_gitea_pbkdf2 passwd result debug ;;
           if ok then
             logger_info (lit "Successfully authenticated.") ;;
             ret true
           else
             logger_info (lit "Hash check failed.") ;;
             ret false
         else
           logger_warning (lit "Found unknown hashing algo "
                           ++ user.passwd_hash_algo result
                           ++ lit " in database!") ;;
           ret false
     | None =>
         logger_info (lit "No matching user found.") ;;
         ret false
     end)
    (cursor_close cursor).

(* ================================================================== *)
(** * Notions of the specification *)
(* ================================================================== *)

(** The eligibility predicate: active, a standard account, login not
    prohibited. *)
Definition eligible (r : user.row) : Prop :=
  user.is_active r = 1%Z /\ user.type r = 0%Z /\ user.prohibit_login r = 0%Z.

(** The same test, as a filter on rows. *)
Definition eligibleb (r : user.row) : bool :=
  ((user.is_active r =? 1) && (user.type r =? 0)
   && (user.prohibit_login r =? 0))%Z.

(** A record is a [DEBUG] record or not. *)
Definition not_debug (rec : level * str) : bool :=
  match fst rec with DEBUG => false | _ => true end.

(** The three-way match of an identifier as the store sees it. *)
Definition matches_identifier (un : str) (r : user.row) : Prop :=
  user.lower_name r = un \/ user.name r = un \/ user.email r = un.

(** Lowercase form of an identifier, on the letters [A]-[Z]; other
    characters stay as they are. *)
Definition lower_char (c : uchar) : uchar :=
  if ((0x41 <=? code c) && (code c <=? 0x5A))%N
  then chr (ascii_of_N (code c + 32)) else c.

Definition lower (s : str) : str := map lower_char s.

(** Lowercase hexadecimal encoding of a byte string, as text. *)
Definition hex_digit_char (n : N) : uchar :=
  chr (ascii_of_N (if (n <? 10)%N then 48 + n else 87 + n)).

Definition hex_lower (b : bytes) : str :=
  flat_map (fun x => [ hex_digit_char (Byte.to_N x / 16);
                       hex_digit_char (Byte.to_N x mod 16) ]) b.

Definition is_lower_hex (c : uchar) : bool :=
  (((0x30 <=? code c) && (code c <=? 0x39))
   || ((0x61 <=? code c) && (code c <=? 0x66)))%N.

(** PBKDF2-HMAC-SHA-256 of the UTF-8 bytes of the password, salted with
    the UTF-8 bytes of the salt text, 10,000 iterations, 50 bytes, in
    lowercase hexadecimal. *)
Definition derived_key_hex (password salt : str) : str :=
  hex_lower (pbkdf2_hmac sha256 (encode_utf8 password) (encode_utf8 salt)
                         10000 50).

(** The record the query of [check_pass] yields first. *)
Definition find_user (identifier : str) (rows : list user.row)
  : option user.row :=
  hd_error (filter (user_query (strip identifier)) rows).

(** The value and the final world of a call. *)
Definition result_of {A} (m : M A) (w : world) : outcome A := fst (m w).
Definition world_after {A} (m : M A) (w : world) : world := snd (m w).

(* ================================================================== *)
(** * Summary of a call *)
(* ================================================================== *)

(** The decision taken on the record the query yields, if any. *)
Definition verdict (found : option user.row) (password : str) : bool :=
  match found with
  | None => false
  | Some r =>
      str_eqb (user.passwd_hash_algo r) (lit "pbkdf2")
      && str_eqb (derived_key_hex password (user.salt r)) (user.passwd r)
  end.

(** The records a call hands to the logger. *)
Definition hash_log (passwd : str) (r : user.row) (debug : bool)
  : list (level * str) :=
  if debug then
    [ (DEBUG, lit "hash result: " ++ derived_key_hex passwd (user.salt r)
              ++ lit " / expected: " ++ user.passwd r) ]
  else [].

Definition check_pass_log (username passwd : str) (debug : bool)
    (d : database) : list (level * str) :=
  (INFO, lit "Handling auth request for " ++ username) ::
  match d with
  | Unavailable _ => []
  | Available rows =>
      match find_user username rows with
      | None => [ (INFO, lit "No matching user found.") ]
      | Some r =>
          (INFO, lit "Found matching user in database.") ::
          if str_eqb (user.passwd_hash_algo r) (lit "pbkdf2") then
            (INFO, lit "Attempt to hash password.") ::
            hash_log passwd r debug ++
            [ if str_eqb (derived_key_hex passwd (user.salt r)) (user.passwd r)
              then (INFO, lit "Successfully authenticated.")
              else (INFO, lit "Hash check failed.") ]
          else
            [ (WARNING, lit "Found unknown hashing algo "
                        ++ user.passwd_hash_algo r ++ lit " in database!") ]
      end
  end.

Definition check_pass_outcome (username passwd : str) (d : database)
  : outcome bool :=
  match d with
  | Unavailable e => Raise (sqlite3_Error e)
  | Available rows => Return (verdict (find_user username rows) passwd)
  end.

(* ================================================================== *)
(** * Sample data *)
(* ================================================================== *)

Module Sample.

Definition zeros100 : str := repeat (chr "0"%char) 100.

(** An eligible account with the supported scheme. *)
Definition alice : user.row :=
  user.Row (lit "alice") (lit "Alice") (lit "alice@example.org")
           1 0 0 (lit "pbkdf2") zeros100 (lit "abc123").

(** The same account, as an organisation (type 1). *)
Definition alice_org : user.row :=
  user.Row (lit "alice") (lit "Alice") (lit "alice@example.org")
           1 1 0 (lit "pbkdf2") zeros100 (lit "abc123").

(** An eligible account whose hash was made by another scheme. *)
Definition bob : user.row :=
  user.Row (lit "bob") (lit "Bob") (lit "bob@example.org")
           1 0 0 (lit "argon2") zeros100 (lit "xyz789").

(** An eligible account whose stored hash has an uppercase digit. *)
Definition carol : user.row :=
  user.Row (lit "carol") (lit "Carol") (lit "carol@example.org")
           1 0 0 (lit "pbkdf2") (chr "A"%char :: repeat (chr "0"%char) 99)
           (lit "salt").

(** A second account that answers to the address of [alice]. *)
Definition alias : user.row :=
  user.Row (lit "alias") (lit "alice") (lit "alias@example.org")
           1 0 0 (lit "argon2") zeros100 (lit "abc123").

Definition world_of (rows : list user.row) : world :=
  World (Available rows) [] 0 [].

Definition offline : world := World (Unavailable 14) [] 0 [].

End Sample.

(* ================================================================== *)
(** * Rows as dictionaries: [dict_factory] *)
(* ================================================================== *)

(** A [dict] with [str] keys: its items in insertion order, every key
    once. *)
Definition dict (V : Type) : Type := list (str * V).

Inductive py_exn := IndexError | KeyError.

Inductive py_result (A : Type) :=
| Value (a : A)
| Raises (e : py_exn).
Arguments Value {A} a.
Arguments Raises {A} e.

(** The value stored under [k], if any. *)
Fixpoint dict_get {V} (d : dict V) (k : str) : option V :=
  match d with
  | [] => None
  | (k', v) :: d' => if str_eqb k' k then Some v else dict_get d' k
  end.

(** [d[k]]: a missing key raises [KeyError]. *)
Definition dict_getitem {V} (d : dict V) (k : str) : py_result V :=
  match dict_get d k with
  | Some v => Value v
  | None => Raises KeyError
  end.

(** [d[k] = v]: a key already present keeps its place and takes the new
    value; a new key goes to the end. *)
Fixpoint dict_set {V} (d : dict V) (k : str) (v : V) : dict V :=
  match d with
  | [] => [(k, v)]
  | (k', v') :: d' =>
      if str_eqb k' k then (k', v) :: d' else (k', v') :: dict_set d' k v
  end.

(** An entry of [cursor.description]: the column name, followed by six
    entries that [sqlite3] leaves [None]. *)
Record column := Column { col_name : str }.

(** The loop of [dict_factory] from index [idx] on, with the dictionary
    built so far; [row[idx]] raises [IndexError] past the end of [row]. *)
Fixpoint dict_factory_loop {V} (idx : nat) (description : list column)
    (row : list V) (d : dict V) : py_result (dict V) :=
  match description with
  | [] => Value d
  | col :: description' =>
      match nth_error row idx with
      | Some v =>
          dict_factory_loop (S idx) description' row
            (dict_set d (col_name col) v)
      | None => Raises IndexError
      end
  end.

(** [dict_factory(cursor, row)], on the description of the cursor. *)
Definition dict_factory {V} (description : list column) (row : list V)
  : py_result (dict V) :=
  dict_factory_loop 0 description row [].

(* ================================================================== *)
(** * Start-up: [main] and [build_app] *)
(* ================================================================== *)

(** The namespace [parse_args] returns; the port is the integer default
    or the text given on the command line. *)
Module args.
Record t := Args
  { database_path : str;
    debug : bool;
    quiet : bool;
    host : str;
    port : Z + str }.
End args.

(** The numeric value of a level in [logging]. *)
Definition levelno (l : level) : Z :=
  match l with DEBUG => 10 | INFO => 20 | WARNING => 30 end.

(** The levels of the root logger and of its one stream handler. *)
Record logging_config := LoggingConfig
  { logger_level : level; handler_level : level }.

(** The levels [main] sets: [-d] before [-q], [INFO] otherwise. *)
Definition main_logging (a : args.t) : logging_config :=
  if args.debug a then LoggingConfig DEBUG DEBUG
  else if args.quiet a then LoggingConfig WARNING WARNING
  else LoggingConfig INFO INFO.

(** A record reaches the stream when the logger is enabled for its level
    and the handler accepts it. *)
Definition emitted (c : logging_config) (rec : level * str) : bool :=
  ((levelno (logger_level c) <=? levelno (fst rec))
   && (levelno (handler_level c) <=? levelno (fst rec)))%Z.

(** The check [build_app] hands to the authentication decorator: the
    [debug] flag is fixed when the application is built. *)
Definition auth_partial (debug : bool) (un pw : str) : M bool :=
  check_pass un pw debug.

(** [main] builds the application with the flag of the command line. *)
Definition main_auth (a : args.t) : str -> str -> M bool :=
  auth_partial (args.debug a).

(** The records a computation adds to the log. *)
Definition new_log {A} (m : M A) (w : world) : list (level * str) :=
  skipn (List.length (log w)) (log (world_after m w)).

(** What a request writes to the stream under the levels of [main]. *)
Definition stream_output (a : args.t) (un pw : str) (w : world)
  : list (level * str) :=
  filter (emitted (main_logging a)) (new_log (main_auth a un pw) w).

(** The worlds the application can be in after serving any number of
    authentication requests from [w0] on. *)
Inductive served (w0 : world) : world -> Prop :=
| served_start : served w0 w0
| served_call (w : world) (username passwd : str) (debug : bool) :
    served w0 w ->
    served w0 (world_after (check_pass username passwd debug) w).

(** U+0000, and the value of a hexadecimal digit. *)
Definition NUL : uchar := UChar 0 eq_refl.

Definition hex_value (c : uchar) : N :=
  (if code c <? 0x3A then code c - 0x30 else code c - 0x57)%N.

(** The bytes a hexadecimal text stands for, two digits per byte. *)
Fixpoint unhex (s : str) : bytes :=
  match s with
  | hi :: lo :: s' =>
      byte_of_Z (Z.of_N (16 * hex_value hi + hex_value lo)) :: unhex s'
  | _ => []
  end.

(* ================================================================== *)
(** * Text: equality, stripping *)
(* ================================================================== *)

Lemma uchar_ext (a b : uchar) : code a = code b -> a = b.
Proof.
  destruct a as [n hn], b as [m hm]; simpl; intros E; subst m.
  f_equal. apply UIP_dec, bool_dec.
Qed.

Lemma uchar_eqb_eq (a b : uchar) : uchar_eqb a b = true <-> a = b.
Proof.
  unfold uchar_eqb; split.
  - intros E; apply N.eqb_eq in E; now apply uchar_ext.
  - intros ->; apply N.eqb_refl.
Qed.

Lemma str_eqb_eq (a b : str) : str_eqb a b = true <-> a = b.
Proof.
  revert b; induction a as [|x a IH]; intros [|y b]; simpl;
    try (split; [discriminate | congruence]); try tauto.
  rewrite andb_true_iff, uchar_eqb_eq, IH. split.
  - intros [-> ->]; reflexivity.
  - intros E; injection E; auto.
Qed.

Lemma str_eqb_refl (a : str) : str_eqb a a = true.
Proof. now apply str_eqb_eq. Qed.

Lemma str_eqb_neq (a b : str) : str_eqb a b = false <-> a <> b.
Proof.
  rewrite <- str_eqb_eq. destruct (str_eqb a b); split; congruence.
Qed.

Lemma lstrip_spaces (ws s : str) :
  forallb isspace ws = true -> lstrip (ws ++ s) = lstrip s.
Proof.
  induction ws as [|c ws IH]; simpl; [reflexivity|].
  rewrite andb_true_iff; intros [Hc Hws]. rewrite Hc. now apply IH.
Qed.

Lemma lstrip_fixed (c : uchar) (s : str) :
  isspace c = false -> lstrip (c :: s) = c :: s.
Proof. intros H; simpl; now rewrite H. Qed.

(** Stripping on the left yields nothing or a text that starts with a
    character that is not whitespace. *)
Lemma lstrip_shape (s : str) :
  lstrip s = [] \/ exists c t, lstrip s = c :: t /\ isspace c = false.
Proof.
  induction s as [|c s IH]; simpl; [now left|].
  destruct (isspace c) eqn:E; [exact IH|].
  right; exists c, s; auto.
Qed.

Lemma lstrip_app_nonspace (s t : str) :
  lstrip s <> [] -> lstrip (s ++ t) = lstrip s ++ t.
Proof.
  induction s as [|c s IH]; simpl; [congruence|].
  destruct (isspace c); auto.
Qed.

Lemma lstrip_idem (s : str) : lstrip (lstrip s) = lstrip s.
Proof.
  destruct (lstrip_shape s) as [-> | (c & t & -> & H)]; [reflexivity|].
  now apply lstrip_fixed.
Qed.

Lemma rstrip_spaces (s ws : str) :
  forallb isspace ws = true -> rstrip (s ++ ws) = rstrip s.
Proof.
  intros H; unfold rstrip. rewrite rev_app_distr, lstrip_spaces; auto.
  rewrite forallb_forall in *; intros x Hx; apply H; now apply in_rev.
Qed.

Lemma rstrip_idem (s : str) : rstrip (rstrip s) = rstrip s.
Proof. unfold rstrip. now rewrite rev_involutive, lstrip_idem. Qed.

Lemma lstrip_all_space_app (u t : str) :
  lstrip u = [] -> lstrip (u ++ t) = lstrip t.
Proof.
  induction u as [|x u IH]; simpl; intros Hu; [reflexivity|].
  destruct (isspace x); [auto | discriminate].
Qed.

(** A leading character that is not whitespace survives [rstrip]. *)
Lemma rstrip_keeps_head (c : uchar) (s : str) :
  isspace c = false -> exists t, rstrip (c :: s) = c :: t.
Proof.
  intros Hc; unfold rstrip; simpl.
  destruct (lstrip_shape (rev s)) as [E | (d & t & E & Hd)].
  - exists []. rewrite (lstrip_all_space_app _ [c] E), (lstrip_fixed c [] Hc).
    reflexivity.
  - rewrite lstrip_app_nonspace by (rewrite E; discriminate).
    rewrite rev_app_distr; simpl. eauto.
Qed.

Lemma strip_idem (s : str) : strip (strip s) = strip s.
Proof.
  unfold strip.
  destruct (lstrip_shape s) as [-> | (c & t & -> & Hc)]; [reflexivity|].
  destruct (rstrip_keeps_head c t Hc) as [u Hu]. rewrite Hu.
  rewrite (lstrip_fixed c u Hc), <- Hu. apply rstrip_idem.
Qed.

(** Whitespace around an identifier does not change what [strip] gives. *)
Lemma strip_padding (ws1 s ws2 : str) :
  forallb isspace ws1 = true -> forallb isspace ws2 = true ->
  strip (ws1 ++ s ++ ws2) = strip s.
Proof.
  intros H1 H2; unfold strip. rewrite (lstrip_spaces ws1 _ H1).
  destruct (lstrip_shape s) as [E | (c & t & E & Hc)].
  - rewrite (lstrip_all_space_app _ ws2 E), E.
    replace (lstrip ws2) with (lstrip (ws2 ++ [])) by now rewrite app_nil_r.
    now rewrite (lstrip_spaces ws2 [] H2).
  - rewrite lstrip_app_nonspace by (rewrite E; discriminate).
    now apply rstrip_spaces.
Qed.

(* ================================================================== *)
(** * Hexadecimal encoding *)
(* ================================================================== *)

(** The two digits [hexlify] emits for a byte are ASCII and are the
    lowercase digits of its two nibbles. *)
Lemma hexlify_digits (x : byte) :
  decode_ascii (hexlify [x]) = Some (hex_lower [x]).
Proof. destruct x; reflexivity. Qed.

Lemma decode_ascii_app (a b : bytes) (s t : str) :
  decode_ascii a = Some s -> decode_ascii b = Some t ->
  decode_ascii (a ++ b) = Some (s ++ t).
Proof.
  revert s; induction a as [|x a IH]; simpl; intros s Ha Hb.
  - injection Ha as <-; exact Hb.
  - destruct (Byte.to_N x <? 128)%N; [|discriminate].
    destruct (decode_ascii a) as [s'|]; [|discriminate].
    injection Ha as <-. now rewrite (IH s' eq_refl Hb).
Qed.

(** Decoding the output of [hexlify] never fails and gives the lowercase
    hexadecimal text. *)
Lemma decode_hexlify (b : bytes) :
  decode_ascii (hexlify b) = Some (hex_lower b).
Proof.
  induction b as [|x b IH]; [reflexivity|].
  change (hexlify (x :: b)) with (hexlify [x] ++ hexlify b).
  change (hex_lower (x :: b)) with (hex_lower [x] ++ hex_lower b).
  apply decode_ascii_app; [apply hexlify_digits | exact IH].
Qed.

Lemma hex_lower_length (b : bytes) :
  List.length (hex_lower b) = 2 * List.length b.
Proof. induction b as [|x b IH]; simpl; [reflexivity | lia]. Qed.

Lemma hex_lower_digits (b : bytes) : forallb is_lower_hex (hex_lower b) = true.
Proof.
  induction b as [|x b IH]; [reflexivity|].
  change (hex_lower (x :: b)) with (hex_lower [x] ++ hex_lower b).
  rewrite forallb_app, IH, andb_true_r. destruct x; reflexivity.
Qed.

(* ================================================================== *)
(** * Output lengths of the digest, the MAC and the key derivation *)
(* ================================================================== *)

Lemma serialize_length (s : SHA256.state) :
  List.length (SHA256.serialize s) = 32.
Proof. reflexivity. Qed.

Lemma digest_length (msg : bytes) : List.length (SHA256.digest msg) = 32.
Proof. unfold SHA256.digest; apply serialize_length. Qed.

Lemma hmac_sha256_length (key msg : bytes) :
  List.length (hmac_sha256 key msg) = 32.
Proof. unfold hmac_sha256; apply digest_length. Qed.

Lemma xor_bytes_length (a b : bytes) :
  List.length a = List.length b ->
  List.length (xor_bytes a b) = List.length a.
Proof.
  revert b; induction a as [|x a IH]; intros [|y b]; simpl;
    try discriminate; auto.
Qed.

Lemma pbkdf2_F_length (password salt : bytes) (c : N) (i : Z) :
  List.length (pbkdf2_F password salt c i) = 32.
Proof.
  unfold pbkdf2_F.
  set (Inv := fun ut : bytes * bytes =>
                List.length (fst ut) = 32 /\ List.length (snd ut) = 32).
  enough (H : Inv (N.iter (N.pred c) (pbkdf2_step password)
                     (hmac_sha256 password (salt ++ SHA256.bytes_of_word i),
                      hmac_sha256 password (salt ++ SHA256.bytes_of_word i))))
    by apply H.
  apply N.iter_invariant.
  - intros [u t] [Hu Ht]; unfold Inv, pbkdf2_step in *; cbn [fst snd] in *.
    split; [apply hmac_sha256_length|].
    rewrite xor_bytes_length; [exact Ht|].
    rewrite Ht; symmetry; apply hmac_sha256_length.
  - split; apply hmac_sha256_length.
Qed.

Lemma pbkdf2_blocks_length (password salt : bytes) (c : N) (i : Z) (l : nat) :
  List.length (pbkdf2_blocks password salt c i l) = 32 * l.
Proof.
  revert i; induction l as [|l IH]; intros i; [reflexivity|].
  change (pbkdf2_blocks password salt c i (S l))
    with (pbkdf2_F password salt c i
          ++ pbkdf2_blocks password salt c (i + 1) l).
  rewrite length_app, pbkdf2_F_length, IH. lia.
Qed.

(** [pbkdf2_hmac] returns exactly [dklen] bytes. *)
Lemma pbkdf2_hmac_length (h : hash_name) (password salt : bytes)
    (iterations : N) (dklen : nat) :
  List.length (pbkdf2_hmac h password salt iterations dklen) = dklen.
Proof.
  destruct h; unfold pbkdf2_hmac.
  rewrite length_firstn, pbkdf2_blocks_length.
  unfold SHA256.digest_size.
  pose proof (Nat.div_mod_eq (dklen + 32 - 1) 32) as E.
  pose proof (Nat.mod_upper_bound (dklen + 32 - 1) 32) as U.
  lia.
Qed.

(** The text the stored hash is compared with: 100 lowercase hexadecimal
    digits. *)
Lemma derived_key_hex_length (password salt : str) :
  List.length (derived_key_hex password salt) = 100.
Proof.
  unfold derived_key_hex. now rewrite hex_lower_length, pbkdf2_hmac_length.
Qed.

Lemma derived_key_hex_digits (password salt : str) :
  forallb is_lower_hex (derived_key_hex password salt) = true.
Proof. apply hex_lower_digits. Qed.

(* ================================================================== *)
(** * Keys that give the same MAC give the same derived key *)
(* ================================================================== *)

Lemma N_iter_pointwise {A : Type} (f g : A -> A) (n : N) (x : A) :
  (forall y, f y = g y) -> N.iter n f x = N.iter n g x.
Proof.
  intros E. induction n as [|n IH] using N.peano_ind; [reflexivity|].
  now rewrite !N.iter_succ, IH, E.
Qed.

Lemma pbkdf2_hmac_same_mac (h : hash_name) (p1 p2 salt : bytes)
    (iterations : N) (dklen : nat) :
  (forall msg, hmac_sha256 p1 msg = hmac_sha256 p2 msg) ->
  pbkdf2_hmac h p1 salt iterations dklen
  = pbkdf2_hmac h p2 salt iterations dklen.
Proof.
  intros E. destruct h. unfold pbkdf2_hmac. f_equal.
  generalize ((dklen + SHA256.digest_size - 1) / SHA256.digest_size).
  generalize 1%Z.
  intros i l; revert i; induction l as [|l IH]; intros i; [reflexivity|].
  cbn [pbkdf2_blocks]. rewrite IH. f_equal.
  unfold pbkdf2_F. rewrite E. f_equal.
  apply N_iter_pointwise. intros [u t]. unfold pbkdf2_step. cbn [fst snd].
  now rewrite E.
Qed.

(** HMAC pads a short key with zero bytes, so a key and the key followed
    by a zero byte are the same key. *)
Lemma hmac_key_block_zero_byte (key : bytes) :
  List.length key < 64 ->
  hmac_key_block (key ++ [x00]) = hmac_key_block key.
Proof.
  intros L. unfold hmac_key_block, SHA256.block_size. cbv zeta.
  rewrite length_app. cbn [List.length].
  destruct (Nat.ltb_spec 64 (List.length key + 1)) as [H|_]; [lia|].
  destruct (Nat.ltb_spec 64 (List.length key)) as [H|_]; [lia|].
  rewrite length_app, <- app_assoc. cbn [List.length]. f_equal.
  replace (64 - List.length key) with (S (64 - (List.length key + 1))) by lia.
  reflexivity.
Qed.

Lemma hmac_sha256_zero_byte (key msg : bytes) :
  List.length key < 64 ->
  hmac_sha256 (key ++ [x00]) msg = hmac_sha256 key msg.
Proof.
  intros L. unfold hmac_sha256. now rewrite (hmac_key_block_zero_byte key L).
Qed.

(* ================================================================== *)
(** * What a call computes *)
(* ================================================================== *)

Opaque pbkdf2_hmac.
Arguments lit : simpl never.

Lemma check_gitea_pbkdf2_run (passwd : str) (row : user.row) (debug : bool)
    (w : world) :
  check_gitea_pbkdf2 passwd row debug w =
  (Return (str_eqb (derived_key_hex passwd (user.salt row)) (user.passwd row)),
   World (db w) (journal w) (open_cursors w)
         (log w ++ hash_log passwd row debug)).
Proof.
  unfold check_gitea_pbkdf2, bind, decode, hash_log, derived_key_hex.
  rewrite decode_hexlify. destruct w as [d j c l], debug; cbn.
  - reflexivity.
  - now rewrite app_nil_r.
Qed.

(** One step of symbolic execution of the monad, leaving the hash and the
    literals folded. *)
Ltac run_step :=
  cbn [bind ret raise fst snd hd_error andb pred pending apply_statement
       logger_info logger_warning logger_debug logger_log
       db journal open_cursors log].

(** The complete effect of a call: its value or exception, and the world
    it leaves. *)
Lemma check_pass_run (username passwd : str) (debug : bool) (w : world) :
  check_pass username passwd debug w =
  (check_pass_outcome username passwd (db w),
   World (db w)
         (journal w ++ [SELECT (user_query (strip username))])
         (open_cursors w)
         (log w ++ check_pass_log username passwd debug (db w))).
Proof.
  destruct w as [d j c l].
  unfold check_pass, check_pass_outcome, check_pass_log, find_user, verdict.
  unfold connection_cursor, try_finally, cursor_execute, cursor_close.
  run_step.
  destruct d as [rows | e]; run_step; [|reflexivity].
  unfold cursor_fetchone; run_step.
  destruct (filter (user_query (strip username)) rows) as [|r rest]; run_step.
  - now rewrite <- app_assoc.
  - destruct (str_eqb (user.passwd_hash_algo r) (lit "pbkdf2")); run_step.
    + unfold bind at 1; rewrite check_gitea_pbkdf2_run; run_step.
      destruct (str_eqb (derived_key_hex passwd (user.salt r))
                        (user.passwd r));
        run_step; repeat rewrite <- app_assoc; reflexivity.
    + repeat rewrite <- app_assoc; reflexivity.
Qed.

Lemma check_pass_result (username passwd : str) (debug : bool) (w : world) :
  result_of (check_pass username passwd debug) w
  = check_pass_outcome username passwd (db w).
Proof. unfold result_of. now rewrite check_pass_run. Qed.

Lemma check_pass_world (username passwd : str) (debug : bool) (w : world) :
  world_after (check_pass username passwd debug) w
  = World (db w)
          (journal w ++ [SELECT (user_query (strip username))])
          (open_cursors w)
          (log w ++ check_pass_log username passwd debug (db w)).
Proof. unfold world_after. now rewrite check_pass_run. Qed.

(* ================================================================== *)
(** * The query *)
(* ================================================================== *)

(** The [WHERE] clause is the three-way match together with the
    eligibility predicate. *)
Lemma user_query_true (un : str) (r : user.row) :
  user_query un r = true <-> matches_identifier un r /\ eligible r.
Proof.
  unfold user_query, matches_identifier, eligible.
  rewrite !andb_true_iff, !orb_true_iff, !str_eqb_eq, !Z.eqb_eq. tauto.
Qed.

Lemma find_user_Some (identifier : str) (rows : list user.row) (r : user.row) :
  find_user identifier rows = Some r ->
  In r rows /\ user_query (strip identifier) r = true.
Proof.
  unfold find_user; intros H.
  destruct (filter (user_query (strip identifier)) rows) as [|x l] eqn:E;
    [discriminate|]. injection H as ->.
  apply filter_In. rewrite E. now left.
Qed.

Lemma find_user_None (identifier : str) (rows : list user.row) :
  (forall r, In r rows -> user_query (strip identifier) r = false) ->
  find_user identifier rows = None.
Proof.
  unfold find_user; intros H.
  destruct (filter (user_query (strip identifier)) rows) as [|x l] eqn:E;
    [reflexivity|].
  assert (Hx : In x (filter (user_query (strip identifier)) rows))
    by (rewrite E; now left).
  apply filter_In in Hx as [Hin Hq]. rewrite (H x Hin) in Hq. discriminate.
Qed.

(** Rows that fail the eligibility test never reach the result set. *)
Lemma filter_query_eligible (un : str) (rows : list user.row) :
  filter (user_query un) (filter eligibleb rows) = filter (user_query un) rows.
Proof.
  induction rows as [|r rows IH]; [reflexivity|]. simpl.
  destruct (eligibleb r) eqn:E; simpl; rewrite IH; [reflexivity|].
  assert (Q : user_query un r = false).
  { unfold user_query, eligibleb in *.
    destruct (user.is_active r =? 1)%Z, (user.type r =? 0)%Z,
             (user.prohibit_login r =? 0)%Z;
      simpl in E; try discriminate; now rewrite ?andb_false_r. }
  now rewrite Q.
Qed.

(* ================================================================== *)
(** * Test vectors of the primitives *)
(* ================================================================== *)

(** The ends of the table of round constants and of the initial hash
    value, as FIPS 180-4 prints them. *)
Example sha256_constants :
  hd 0%Z SHA256.K = 0x428a2f98%Z /\ last SHA256.K 0%Z = 0xc67178f2%Z
  /\ SHA256.sa SHA256.H0 = 0x6a09e667%Z /\ SHA256.sh SHA256.H0 = 0x5be0cd19%Z.
Proof. repeat split; reflexivity. Qed.

(** FIPS 180-4, one-block message ["abc"]. *)
Example sha256_abc :
  hex_lower (SHA256.digest [x61; x62; x63])
  = lit "ba7816bf8f01cfea414140de5dae2223b00361a396177a9cb410ff61f20015ad".
Proof. apply str_eqb_eq. vm_compute. reflexivity. Qed.

(** HMAC-SHA-256 with key ["key"]. *)
Example hmac_sha256_fox :
  hex_lower (hmac_sha256 (encode_utf8 (lit "key"))
               (encode_utf8 (lit "The quick brown fox jumps over the lazy dog")))
  = lit "f7bc83f430538424b13298e6aa6fb143ef4d59a14946175997479dbc2d1a3cd8".
Proof. apply str_eqb_eq. vm_compute. reflexivity. Qed.

(** A message of two blocks: one hundred times ["a"]. *)
Example sha256_two_blocks :
  hex_lower (SHA256.digest (repeat x61 100))
  = lit "2816597888e4a0d3a36b82b83316ab32680eb8f00f8cd3b904d681246d285a0e".
Proof. apply str_eqb_eq. vm_compute. reflexivity. Qed.

(** A key longer than a block is hashed first. *)
Example hmac_sha256_long_key :
  hex_lower (hmac_sha256 (repeat x6b 100) (encode_utf8 (lit "msg")))
  = lit "bd56a1782c2830e8abc6ed866a57a1230661e650b84c62f7ee3accc5fa5af491".
Proof. apply str_eqb_eq. vm_compute. reflexivity. Qed.

(** PBKDF2-HMAC-SHA-256, ["password"] / ["salt"], two iterations, 50
    bytes: two blocks, the second truncated. *)
Example pbkdf2_hmac_two_iterations :
  hex_lower (pbkdf2_hmac sha256 (encode_utf8 (lit "password"))
               (encode_utf8 (lit "salt")) 2 50)
  = lit ("ae4d0c95af6b46d32d0adff928f06dd02a303f8ef3c251dfd6e2d85a95474c43"
         ++ "830651afcb5c862f0b249bd031f7a67520d1").
Proof. apply str_eqb_eq. vm_compute. reflexivity. Qed.

(** The salt text is used as it stands: ["abc123"] gives six bytes, not
    the three a hexadecimal decoding would give. *)
Example salt_bytes_are_text_bytes :
  encode_utf8 (lit "abc123") = [x61; x62; x63; x31; x32; x33].
Proof. reflexivity. Qed.

(** Two-, three- and four-byte UTF-8 sequences. *)
Example encode_utf8_multibyte :
  encode_utf8 [UChar 0xE9 eq_refl; UChar 0x20AC eq_refl; UChar 0x1F600 eq_refl]
  = [xc3; xa9; xe2; x82; xac; xf0; x9f; x98; x80].
Proof. reflexivity. Qed.

Lemma eligibleb_true (r : user.row) : eligibleb r = true <-> eligible r.
Proof.
  unfold eligibleb, eligible. rewrite !andb_true_iff, !Z.eqb_eq. tauto.
Qed.

(* ================================================================== *)
(** * Properties of the verification *)
(* ================================================================== *)

(** C1.  When the record the query yields is tagged ["pbkdf2"], the call
    returns [True] exactly when the lowercase hexadecimal text of
    PBKDF2-HMAC-SHA-256 (password: the UTF-8 bytes of the candidate; salt:
    the UTF-8 bytes of the salt text as it stands; 10,000 iterations; 50
    bytes) equals the stored hash as a string, and [False] otherwise; that
    text has 100 characters, all lowercase hexadecimal digits.  The same
    holds of [check_gitea_pbkdf2] on the record. *)
Theorem pbkdf2_record_verifies_iff_hash_equal
    (username passwd : str) (debug : bool) (w : world)
    (rows : list user.row) (r : user.row) :
  db w = Available rows ->
  find_user username rows = Some r ->
  user.passwd_hash_algo r = lit "pbkdf2" ->
  let hex := hex_lower (pbkdf2_hmac sha256 (encode_utf8 passwd)
                          (encode_utf8 (user.salt r)) 10000 50) in
  (result_of (check_pass username passwd debug) w = Return true
   <-> hex = user.passwd r)
  /\ (result_of (check_pass username passwd debug) w = Return false
      <-> hex <> user.passwd r)
  /\ (result_of (check_gitea_pbkdf2 passwd r debug) w = Return true
      <-> hex = user.passwd r)
  /\ List.length hex = 100
  /\ forallb is_lower_hex hex = true.
Proof.
  intros Hdb Hfind Halgo hex.
  rewrite check_pass_result, Hdb. unfold check_pass_outcome, verdict.
  rewrite Hfind, Halgo, str_eqb_refl. cbn [andb].
  unfold result_of. rewrite check_gitea_pbkdf2_run. cbn [fst].
  fold (derived_key_hex passwd (user.salt r)) in hex. subst hex.
  split; [|split; [|split; [|split]]].
  - rewrite <- str_eqb_eq. split; congruence.
  - rewrite <- str_eqb_neq. split; congruence.
  - rewrite <- str_eqb_eq. split; congruence.
  - apply derived_key_hex_length.
  - apply derived_key_hex_digits.
Qed.

(** C2.  When every stored record that matches the stripped identifier
    (by normalized name, raw name or email) fails the eligibility
    predicate (is_active = 1, type = 0, prohibit_login = 0), the call
    returns [False], whatever the password; and the records that fail the
    predicate have no part in any result: removing them from the store
    leaves every result as it is. *)
Theorem ineligible_records_never_authenticate
    (username passwd : str) (debug : bool) (w : world)
    (rows : list user.row) :
  db w = Available rows ->
  (forall r, In r rows -> matches_identifier (strip username) r ->
             ~ eligible r) ->
  result_of (check_pass username passwd debug) w = Return false
  /\ forall u p d j c l,
       result_of (check_pass u p d) (World (Available rows) j c l)
       = result_of (check_pass u p d)
           (World (Available (filter eligibleb rows)) j c l).
Proof.
  intros Hdb Hno. split.
  - rewrite check_pass_result, Hdb. unfold check_pass_outcome.
    rewrite find_user_None; [reflexivity|].
    intros r Hin. destruct (user_query (strip username) r) eqn:Q; [|reflexivity].
    apply user_query_true in Q as [Hm He]. now destruct (Hno r Hin Hm).
  - intros u p d j c l. rewrite !check_pass_result. cbn [db].
    unfold check_pass_outcome, find_user. now rewrite filter_query_eligible.
Qed.

(** C3, as amended.  For an eligible record whose raw name and email both
    differ from the stripped identifier, the query selects the record
    exactly when its normalized name equals the stripped identifier
    character for character; the identifier is not lowercased. *)
Theorem normalized_name_matches_exactly (username : str) (r : user.row) :
  eligible r ->
  user.name r <> strip username ->
  user.email r <> strip username ->
  (user_query (strip username) r = true
   <-> user.lower_name r = strip username).
Proof.
  intros He Hn Hm. rewrite user_query_true. unfold matches_identifier.
  tauto.
Qed.

(** C4.  When the record the query yields carries an algorithm tag other
    than ["pbkdf2"], the call returns the value [False], for every
    password and every stored hash; it does not raise. *)
Theorem unsupported_algorithm_returns_false
    (username passwd : str) (debug : bool) (w : world)
    (rows : list user.row) (r : user.row) :
  db w = Available rows ->
  find_user username rows = Some r ->
  user.passwd_hash_algo r <> lit "pbkdf2" ->
  result_of (check_pass username passwd debug) w = Return false.
Proof.
  intros Hdb Hfind Halgo.
  rewrite check_pass_result, Hdb. unfold check_pass_outcome, verdict.
  rewrite Hfind. apply str_eqb_neq in Halgo. now rewrite Halgo.
Qed.

(** C5.  The call raises exactly when its query raises, and then with the
    same [sqlite3.Error]; in every other case it returns a Boolean: [False]
    when no record matches, [False] when the record's algorithm is not
    supported, and the result of the hash comparison otherwise. *)
Theorem raises_exactly_when_query_fails
    (username passwd : str) (debug : bool) (w : world) :
  (forall e,
     result_of (check_pass username passwd debug) w = Raise e
     <-> result_of (cursor_execute (Cursor [])
                      (SELECT (user_query (strip username)))) w = Raise e)
  /\ match db w with
     | Unavailable errcode =>
         result_of (check_pass username passwd debug) w
         = Raise (sqlite3_Error errcode)
     | Available rows =>
         match find_user username rows with
         | None =>
             result_of (check_pass username passwd debug) w = Return false
         | Some r =>
             if str_eqb (user.passwd_hash_algo r) (lit "pbkdf2") then
               result_of (check_pass username passwd debug) w
               = Return (str_eqb (derived_key_hex passwd (user.salt r))
                                 (user.passwd r))
             else
               result_of (check_pass username passwd debug) w = Return false
         end
     end.
Proof.
  rewrite check_pass_result. unfold check_pass_outcome, verdict.
  unfold result_of, cursor_execute.
  destruct (db w) as [rows | errcode]; cbn [fst apply_statement].
  - split; [intros e; split; discriminate|].
    destruct (find_user username rows) as [r|]; [|reflexivity].
    destruct (str_eqb (user.passwd_hash_algo r) (lit "pbkdf2")); reflexivity.
  - split; [|reflexivity].
    intros e; split; intros E; injection E as <-; reflexivity.
Qed.

(** C6.  Whitespace at the ends of the identifier is stripped before the
    query: an identifier padded with whitespace gives the same result as
    the identifier itself, the identifier and its stripped form give the
    same result, and the query finds the same record for all of them. *)
Theorem surrounding_whitespace_is_ignored
    (username ws1 ws2 passwd : str) (debug : bool) (w : world) :
  forallb isspace ws1 = true ->
  forallb isspace ws2 = true ->
  result_of (check_pass (ws1 ++ username ++ ws2) passwd debug) w
  = result_of (check_pass username passwd debug) w
  /\ result_of (check_pass (strip username) passwd debug) w
     = result_of (check_pass username passwd debug) w
  /\ forall rows,
       find_user (ws1 ++ username ++ ws2) rows = find_user username rows
       /\ find_user (strip username) rows = find_user username rows.
Proof.
  intros H1 H2.
  assert (F : forall rows,
             find_user (ws1 ++ username ++ ws2) rows = find_user username rows
             /\ find_user (strip username) rows = find_user username rows).
  { intros rows; unfold find_user.
    now rewrite (strip_padding ws1 username ws2 H1 H2), strip_idem. }
  rewrite !check_pass_result. unfold check_pass_outcome.
  destruct (db w) as [rows | e]; [|auto].
  destruct (F rows) as [-> ->]. auto.
Qed.

(** C7.  When several records satisfy the query, the first one the store
    returns decides: the result is the decision on that record alone, and
    it is the result the call gives on a store that holds only that
    record, whatever the later matching records are. *)
Theorem first_matching_record_decides
    (username passwd : str) (debug : bool) (w : world)
    (rows : list user.row) (r : user.row) (rest : list user.row) :
  db w = Available rows ->
  filter (user_query (strip username)) rows = r :: rest ->
  result_of (check_pass username passwd debug) w
  = Return (verdict (Some r) passwd)
  /\ result_of (check_pass username passwd debug) w
     = result_of (check_pass username passwd debug)
         (World (Available [r]) (journal w) (open_cursors w) (log w)).
Proof.
  intros Hdb Hf.
  assert (Q : user_query (strip username) r = true).
  { assert (Hin : In r (filter (user_query (strip username)) rows))
      by (rewrite Hf; now left).
    now apply filter_In in Hin. }
  rewrite !check_pass_result, Hdb. cbn [db].
  unfold check_pass_outcome, find_user. rewrite Hf. cbn [filter].
  rewrite Q. split; reflexivity.
Qed.

(** C8.  A call leaves the store as it found it: the rows of [user] are
    the same afterwards, the one statement submitted is the [SELECT] of
    the query, which is read-only, and the cursor opened is closed. *)
Theorem store_is_left_unchanged
    (username passwd : str) (debug : bool) (w : world) :
  let w' := world_after (check_pass username passwd debug) w in
  db w' = db w
  /\ journal w' = journal w ++ [SELECT (user_query (strip username))]
  /\ forallb read_only (skipn (List.length (journal w)) (journal w')) = true
  /\ open_cursors w' = open_cursors w.
Proof.
  cbv zeta. rewrite check_pass_world. cbn [db journal open_cursors].
  split; [reflexivity|]. split; [reflexivity|]. split; [|reflexivity].
  rewrite skipn_app, skipn_all, Nat.sub_diag. reflexivity.
Qed.

(** C9.  When the record the query yields is tagged ["pbkdf2"] and its
    stored hash is not a text of exactly 100 lowercase hexadecimal digits,
    the call returns [False] for every password. *)
Theorem malformed_stored_hash_never_verifies
    (username passwd : str) (debug : bool) (w : world)
    (rows : list user.row) (r : user.row) :
  db w = Available rows ->
  find_user username rows = Some r ->
  user.passwd_hash_algo r = lit "pbkdf2" ->
  List.length (user.passwd r) <> 100
  \/ forallb is_lower_hex (user.passwd r) = false ->
  result_of (check_pass username passwd debug) w = Return false.
Proof.
  intros Hdb Hfind Halgo Hbad.
  rewrite check_pass_result, Hdb. unfold check_pass_outcome, verdict.
  rewrite Hfind, Halgo, str_eqb_refl. cbn [andb]. f_equal.
  apply str_eqb_neq. intros E.
  pose proof (derived_key_hex_length passwd (user.salt r)) as L.
  pose proof (derived_key_hex_digits passwd (user.salt r)) as D.
  rewrite E in L, D. destruct Hbad as [H | H]; congruence.
Qed.

(** C10.  The [debug] flag changes nothing but the log: with and without
    it a call gives the same value or exception, leaves the same rows,
    the same journal and the same cursors; the logs agree on every record
    that is not a [DEBUG] record.  The same holds of
    [check_gitea_pbkdf2]. *)
Theorem debug_flag_only_affects_logging
    (username passwd : str) (w : world) :
  result_of (check_pass username passwd true) w
  = result_of (check_pass username passwd false) w
  /\ (forall r, result_of (check_gitea_pbkdf2 passwd r true) w
                = result_of (check_gitea_pbkdf2 passwd r false) w)
  /\ db (world_after (check_pass username passwd true) w)
     = db (world_after (check_pass username passwd false) w)
  /\ journal (world_after (check_pass username passwd true) w)
     = journal (world_after (check_pass username passwd false) w)
  /\ open_cursors (world_after (check_pass username passwd true) w)
     = open_cursors (world_after (check_pass username passwd false) w)
  /\ filter not_debug (log (world_after (check_pass username passwd true) w))
     = filter not_debug
         (log (world_after (check_pass username passwd false) w)).
Proof.
  rewrite !check_pass_result, !check_pass_world. cbn [db journal open_cursors log].
  split; [reflexivity|]. split.
  { intros r. unfold result_of. now rewrite !check_gitea_pbkdf2_run. }
  split; [reflexivity|]. split; [reflexivity|]. split; [reflexivity|].
  rewrite !filter_app. f_equal. unfold check_pass_log.
  destruct (db w) as [rows | e]; [|reflexivity].
  destruct (find_user username rows) as [r|]; [|reflexivity].
  destruct (str_eqb (user.passwd_hash_algo r) (lit "pbkdf2")); [|reflexivity].
  cbn [filter not_debug fst]. rewrite !filter_app.
  unfold hash_log. reflexivity.
Qed.

(* ================================================================== *)
(** * Instances on the sample data *)
(* ================================================================== *)

(** A call against a database that cannot be opened: the exception of the
    query reaches the caller, after the cursor was closed. *)
Example check_pass_offline :
  check_pass (lit "alice") (lit "secret") false Sample.offline
  = (Raise (sqlite3_Error 14),
     World (Unavailable 14)
           [SELECT (user_query (strip (lit "alice")))] 0
           [(INFO, lit "Handling auth request for " ++ lit "alice")]).
Proof. rewrite check_pass_run. reflexivity. Qed.

(** A call for an account of an unsupported scheme, with the log it
    leaves. *)
Example check_pass_unsupported :
  check_pass (lit " bob ") (lit "secret") true (Sample.world_of [Sample.bob])
  = (Return false,
     World (Available [Sample.bob])
           [SELECT (user_query (strip (lit " bob ")))] 0
           [ (INFO, lit "Handling auth request for " ++ lit " bob ");
             (INFO, lit "Found matching user in database.");
             (WARNING, lit "Found unknown hashing algo " ++ lit "argon2"
                       ++ lit " in database!") ]).
Proof. rewrite check_pass_run. reflexivity. Qed.

(** The account [alice] is found under its normalized name and is tagged ["pbkdf2"]. *)
Lemma pbkdf2_record_verifies_iff_hash_equal_witness :
  db (Sample.world_of [Sample.alice]) = Available [Sample.alice]
  /\ find_user (lit "alice") [Sample.alice] = Some Sample.alice
  /\ user.passwd_hash_algo Sample.alice = lit "pbkdf2"
  /\ (result_of (check_pass (lit "alice") (lit "secret") false)
        (Sample.world_of [Sample.alice]) = Return true
      <-> hex_lower (pbkdf2_hmac sha256 (encode_utf8 (lit "secret"))
                       (encode_utf8 (user.salt Sample.alice)) 10000 50)
          = user.passwd Sample.alice).
Proof.
  split; [reflexivity|]. split; [reflexivity|]. split; [reflexivity|].
  exact (proj1 (pbkdf2_record_verifies_iff_hash_equal
                  (lit "alice") (lit "secret") false
                  (Sample.world_of [Sample.alice]) [Sample.alice] Sample.alice
                  eq_refl eq_refl eq_refl)).
Defined.

(** An organisation account matches the identifier and is not eligible. *)
Lemma ineligible_records_never_authenticate_witness :
  db (Sample.world_of [Sample.alice_org]) = Available [Sample.alice_org]
  /\ (forall r, In r [Sample.alice_org] ->
                matches_identifier (strip (lit "alice")) r -> ~ eligible r)
  /\ result_of (check_pass (lit "alice") (lit "secret") false)
       (Sample.world_of [Sample.alice_org]) = Return false.
Proof.
  assert (H : forall r, In r [Sample.alice_org] ->
                matches_identifier (strip (lit "alice")) r -> ~ eligible r).
  { intros r [<- | []] _ [_ [T _]]. discriminate T. }
  split; [reflexivity|]. split; [exact H|].
  exact (proj1 (ineligible_records_never_authenticate
                  (lit "alice") (lit "secret") false
                  (Sample.world_of [Sample.alice_org]) [Sample.alice_org]
                  eq_refl H)).
Defined.

(** C3, as stated, fails: the normalized name of the record is the
    lowercase form of the identifier ["ALICE"], neither the raw name nor
    the email equals the identifier, the record is eligible, and yet the
    query does not select it and the call returns [False]. *)
Lemma uppercase_identifier_is_not_matched :
  user.lower_name Sample.alice = lower (lit "ALICE")
  /\ user.name Sample.alice <> lit "ALICE"
  /\ user.email Sample.alice <> lit "ALICE"
  /\ eligible Sample.alice
  /\ user_query (strip (lit "ALICE")) Sample.alice = false
  /\ find_user (lit "ALICE") [Sample.alice] = None
  /\ result_of (check_pass (lit "ALICE") (lit "secret") false)
       (Sample.world_of [Sample.alice]) = Return false.
Proof.
  split; [apply str_eqb_eq; reflexivity|].
  split; [apply str_eqb_neq; reflexivity|].
  split; [apply str_eqb_neq; reflexivity|].
  split; [unfold eligible; auto|].
  split; [reflexivity|]. split; [reflexivity|].
  rewrite check_pass_result. reflexivity.
Qed.

(** The identifier ["alice"] matches [alice] through the normalized name only. *)
Lemma normalized_name_matches_exactly_witness :
  eligible Sample.alice
  /\ user.name Sample.alice <> strip (lit "alice")
  /\ user.email Sample.alice <> strip (lit "alice")
  /\ (user_query (strip (lit "alice")) Sample.alice = true
      <-> user.lower_name Sample.alice = strip (lit "alice")).
Proof.
  assert (E : eligible Sample.alice) by (unfold eligible; auto).
  assert (N : user.name Sample.alice <> strip (lit "alice"))
    by (apply str_eqb_neq; reflexivity).
  assert (M : user.email Sample.alice <> strip (lit "alice"))
    by (apply str_eqb_neq; reflexivity).
  split; [exact E|]. split; [exact N|]. split; [exact M|].
  exact (normalized_name_matches_exactly (lit "alice") Sample.alice E N M).
Defined.

(** The account [bob] carries the tag ["argon2"]. *)
Lemma unsupported_algorithm_returns_false_witness :
  db (Sample.world_of [Sample.bob]) = Available [Sample.bob]
  /\ find_user (lit "bob") [Sample.bob] = Some Sample.bob
  /\ user.passwd_hash_algo Sample.bob <> lit "pbkdf2"
  /\ result_of (check_pass (lit "bob") (lit "secret") true)
       (Sample.world_of [Sample.bob]) = Return false.
Proof.
  assert (A : user.passwd_hash_algo Sample.bob <> lit "pbkdf2")
    by (apply str_eqb_neq; reflexivity).
  split; [reflexivity|]. split; [reflexivity|]. split; [exact A|].
  exact (unsupported_algorithm_returns_false
           (lit "bob") (lit "secret") true
           (Sample.world_of [Sample.bob]) [Sample.bob] Sample.bob
           eq_refl eq_refl A).
Defined.

(** The identifier ["  alice "]. *)
Lemma surrounding_whitespace_is_ignored_witness :
  forallb isspace (lit "  ") = true
  /\ forallb isspace (lit " ") = true
  /\ result_of (check_pass (lit "  " ++ lit "alice" ++ lit " ")
                  (lit "secret") false) (Sample.world_of [Sample.alice])
     = result_of (check_pass (lit "alice") (lit "secret") false)
         (Sample.world_of [Sample.alice]).
Proof.
  split; [reflexivity|]. split; [reflexivity|].
  exact (proj1 (surrounding_whitespace_is_ignored
                  (lit "alice") (lit "  ") (lit " ") (lit "secret") false
                  (Sample.world_of [Sample.alice]) eq_refl eq_refl)).
Defined.

(** Two records answer to ["alice"]; the first one decides. *)
Lemma first_matching_record_decides_witness :
  db (Sample.world_of [Sample.alice; Sample.alias])
  = Available [Sample.alice; Sample.alias]
  /\ filter (user_query (strip (lit "alice"))) [Sample.alice; Sample.alias]
     = [Sample.alice; Sample.alias]
  /\ result_of (check_pass (lit "alice") (lit "secret") false)
       (Sample.world_of [Sample.alice; Sample.alias])
     = Return (verdict (Some Sample.alice) (lit "secret")).
Proof.
  split; [reflexivity|]. split; [reflexivity|].
  exact (proj1 (first_matching_record_decides
                  (lit "alice") (lit "secret") false
                  (Sample.world_of [Sample.alice; Sample.alias])
                  [Sample.alice; Sample.alias] Sample.alice [Sample.alias]
                  eq_refl eq_refl)).
Defined.

(** The stored hash of [carol] has 100 characters, the first an uppercase digit. *)
Lemma malformed_stored_hash_never_verifies_witness :
  db (Sample.world_of [Sample.carol]) = Available [Sample.carol]
  /\ find_user (lit "carol") [Sample.carol] = Some Sample.carol
  /\ user.passwd_hash_algo Sample.carol = lit "pbkdf2"
  /\ List.length (user.passwd Sample.carol) = 100
  /\ forallb is_lower_hex (user.passwd Sample.carol) = false
  /\ result_of (check_pass (lit "carol") (lit "secret") false)
       (Sample.world_of [Sample.carol]) = Return false.
Proof.
  split; [reflexivity|]. split; [reflexivity|]. split; [reflexivity|].
  split; [reflexivity|]. split; [reflexivity|].
  exact (malformed_stored_hash_never_verifies
           (lit "carol") (lit "secret") false
           (Sample.world_of [Sample.carol]) [Sample.carol] Sample.carol
           eq_refl eq_refl eq_refl (or_intror eq_refl)).
Defined.

(* ================================================================== *)
(** * [dict_factory]: rows as dictionaries *)
(* ================================================================== *)

Lemma dict_get_set {V} (d : dict V) (k k' : str) (v : V) :
  dict_get (dict_set d k v) k'
  = if str_eqb k k' then Some v else dict_get d k'.
Proof.
  induction d as [|[k0 v0] d IH]; cbn [dict_set dict_get]; [reflexivity|].
  destruct (str_eqb k0 k) eqn:E0; cbn [dict_get].
  - apply str_eqb_eq in E0; subst k0.
    destruct (str_eqb k k'); reflexivity.
  - destruct (str_eqb k0 k') eqn:E1; [|exact IH].
    apply str_eqb_eq in E1; subst k'.
    destruct (str_eqb k k0) eqn:E2; [|reflexivity].
    apply str_eqb_eq in E2; subst k0. rewrite str_eqb_refl in E0. discriminate.
Qed.

Lemma dict_set_new {V} (d : dict V) (k : str) (v : V) :
  ~ In k (map fst d) -> dict_set d k v = d ++ [(k, v)].
Proof.
  induction d as [|[k0 v0] d IH]; cbn [dict_set map fst In app];
    intros H; [reflexivity|].
  destruct (str_eqb k0 k) eqn:E.
  - apply str_eqb_eq in E. tauto.
  - rewrite IH by tauto. reflexivity.
Qed.

Lemma nth_error_skipn_cons {A} (l : list A) (n : nat) (x : A) :
  nth_error l n = Some x -> skipn n l = x :: skipn (S n) l.
Proof.
  revert n; induction l as [|a l IH]; intros [|n]; cbn; try discriminate.
  - now intros [= ->].
  - intros H. now rewrite (IH n H).
Qed.

Lemma find_snoc {A} (f : A -> bool) (l : list A) (x : A) :
  find f (l ++ [x])
  = match find f l with
    | Some y => Some y
    | None => if f x then Some x else None
    end.
Proof.
  induction l as [|a l IH]; cbn; [reflexivity|].
  destruct (f a); [reflexivity | exact IH].
Qed.

(** X1.  [dict_factory] raises [IndexError] exactly when the row has
    fewer values than the description has columns; otherwise it returns a
    dictionary. *)
Theorem dict_factory_index_error {V} (description : list column)
    (row : list V) :
  (dict_factory description row = Raises IndexError
   <-> List.length row < List.length description)
  /\ (List.length description <= List.length row
      <-> exists d, dict_factory description row = Value d).
Proof.
  unfold dict_factory.
  assert (G : forall idx (d0 : dict V),
            idx <= List.length row ->
            (List.length row < idx + List.length description ->
             dict_factory_loop idx description row d0 = Raises IndexError)
            /\ (idx + List.length description <= List.length row ->
                exists d, dict_factory_loop idx description row d0 = Value d)).
  { induction description as [|c cs IH]; intros idx d0 Hi;
      cbn [dict_factory_loop List.length]; split; intros H.
    - lia.
    - eauto.
    - destruct (nth_error row idx) as [v|] eqn:E; [|reflexivity].
      assert (idx < List.length row)
        by (apply nth_error_Some; rewrite E; discriminate).
      apply (IH (S idx)); lia.
    - destruct (nth_error row idx) as [v|] eqn:E.
      + apply (IH (S idx)); lia.
      + apply nth_error_None in E. lia. }
  destruct (G 0 [] (Nat.le_0_l _)) as [G1 G2]. cbn [Nat.add] in G1, G2.
  split; split; intros H.
  - destruct (Nat.lt_ge_cases (List.length row) (List.length description))
      as [L|L]; [exact L|].
    destruct (G2 L) as [d Hd]. rewrite Hd in H. discriminate.
  - exact (G1 H).
  - exact (G2 H).
  - destruct H as [d Hd].
    destruct (Nat.lt_ge_cases (List.length row) (List.length description))
      as [L|L]; [|exact L].
    rewrite (G1 L) in Hd. discriminate.
Qed.

(** X2.  In the dictionary [dict_factory] returns, a column name maps to
    the value of the rightmost column of that name, and a name that is
    not a column name is a missing key. *)
Theorem dict_factory_rightmost_column_wins {V} (description : list column)
    (row : list V) :
  List.length description <= List.length row ->
  exists d,
    dict_factory description row = Value d
    /\ (forall k,
          dict_get d k
          = option_map snd
              (find (fun item => str_eqb (fst item) k)
                 (rev (combine (map col_name description) row))))
    /\ (forall k, ~ In k (map col_name description) ->
                  dict_getitem d k = Raises KeyError).
Proof.
  unfold dict_factory.
  assert (G : forall idx (d0 : dict V),
            idx + List.length description <= List.length row ->
            exists d,
              dict_factory_loop idx description row d0 = Value d
              /\ forall k,
                   dict_get d k
                   = match find (fun item => str_eqb (fst item) k)
                             (rev (combine (map col_name description)
                                     (skipn idx row))) with
                     | Some item => Some (snd item)
                     | None => dict_get d0 k
                     end).
  { induction description as [|c cs IH]; intros idx d0 H;
      cbn [dict_factory_loop List.length map] in *.
    - exists d0. split; [reflexivity|]. intros k. reflexivity.
    - destruct (nth_error row idx) as [v|] eqn:E;
        [|apply nth_error_None in E; lia].
      destruct (IH (S idx) (dict_set d0 (col_name c) v)) as (d & Hd & Hg);
        [lia|].
      exists d. split; [exact Hd|]. intros k.
      rewrite (nth_error_skipn_cons row idx v E). cbn [combine rev].
      rewrite find_snoc, Hg. cbn [fst snd].
      destruct (find _ _); [reflexivity|]. rewrite dict_get_set.
      now destruct (str_eqb (col_name c) k). }
  intros H. destruct (G 0 [] H) as (d & Hd & Hg). cbn [skipn] in Hg.
  exists d. split; [exact Hd|]. split.
  - intros k. rewrite Hg. now destruct (find _ _).
  - intros k Hk. unfold dict_getitem. rewrite Hg.
    destruct (find _ _) as [[k0 v0]|] eqn:F; [|reflexivity].
    apply find_some in F as [Hin E]. cbn [fst] in E.
    apply str_eqb_eq in E; subst k0.
    apply in_rev, in_combine_l in Hin. contradiction.
Qed.

(** X3.  When the column names are distinct, the items of the
    dictionary are the columns in their order, each with the value of
    its position; values past the last column are dropped. *)
Theorem dict_factory_distinct_columns {V} (description : list column)
    (row : list V) :
  NoDup (map col_name description) ->
  List.length description <= List.length row ->
  dict_factory description row
  = Value (combine (map col_name description) row).
Proof.
  unfold dict_factory.
  assert (G : forall idx (d0 : dict V),
            NoDup (map col_name description) ->
            (forall k, In k (map fst d0) ->
                       ~ In k (map col_name description)) ->
            idx + List.length description <= List.length row ->
            dict_factory_loop idx description row d0
            = Value (d0 ++ combine (map col_name description)
                             (skipn idx row))).
  { induction description as [|c cs IH]; intros idx d0 ND Hd H;
      cbn [dict_factory_loop List.length map] in *.
    - cbn [combine]. now rewrite app_nil_r.
    - destruct (nth_error row idx) as [v|] eqn:E;
        [|apply nth_error_None in E; lia].
      inversion ND as [|x l Hx ND']; subst.
      rewrite dict_set_new by (intros Hk; apply (Hd _ Hk); now left).
      rewrite (IH (S idx)); [| exact ND' | | lia].
      + rewrite (nth_error_skipn_cons row idx v E). cbn [combine].
        now rewrite <- app_assoc.
      + intros k Hk Hc. rewrite map_app, in_app_iff in Hk.
        destruct Hk as [Hk | [<- | []]]; [|exact (Hx Hc)].
        apply (Hd _ Hk). now right. }
  intros ND H. rewrite (G 0 [] ND); [reflexivity | intros k [] | exact H].
Qed.

(* ================================================================== *)
(** * Further properties of [check_pass] and [check_gitea_pbkdf2] *)
(* ================================================================== *)

Lemma new_log_check_pass (username passwd : str) (debug : bool) (w : world) :
  new_log (check_pass username passwd debug) w
  = check_pass_log username passwd debug (db w).
Proof.
  unfold new_log. rewrite check_pass_world. cbn [log].
  now rewrite skipn_app, skipn_all, Nat.sub_diag.
Qed.

Lemma derived_key_hex_zero_byte (passwd salt : str) :
  List.length (encode_utf8 passwd) < 64 ->
  derived_key_hex (passwd ++ [NUL]) salt = derived_key_hex passwd salt.
Proof.
  intros L. unfold derived_key_hex.
  assert (E : encode_utf8 (passwd ++ [NUL]) = encode_utf8 passwd ++ [x00])
    by (unfold encode_utf8; now rewrite flat_map_app).
  rewrite E. apply (f_equal hex_lower).
  apply pbkdf2_hmac_same_mac. intros msg.
  apply hmac_sha256_zero_byte. exact L.
Qed.

Lemma unhex_hex_lower (b : bytes) : unhex (hex_lower b) = b.
Proof.
  induction b as [|x b IH]; [reflexivity|].
  change (hex_lower (x :: b))
    with (hex_digit_char (Byte.to_N x / 16)
          :: hex_digit_char (Byte.to_N x mod 16) :: hex_lower b).
  cbn [unhex]. rewrite IH. f_equal. destruct x; reflexivity.
Qed.

Lemma hex_lower_injective (a b : bytes) : hex_lower a = hex_lower b -> a = b.
Proof.
  intros E. rewrite <- (unhex_hex_lower a), <- (unhex_hex_lower b).
  now rewrite E.
Qed.

Lemma filter_all {A} (f : A -> bool) (l : list A) :
  (forall x, In x l -> f x = true) -> filter f l = l.
Proof.
  induction l as [|a l IH]; cbn [filter]; intros H; [reflexivity|].
  rewrite (H a (or_introl eq_refl)), IH; [reflexivity|].
  intros x Hx; apply H; now right.
Qed.

(** X4.  A call returns [True] exactly when the store answers, the first
    record the query yields is tagged ["pbkdf2"] and its stored hash is the
    derived key of the password in lowercase hexadecimal; that record is
    then a stored, eligible record one of whose three name fields equals
    the stripped identifier. *)
Theorem success_characterised
    (username passwd : str) (debug : bool) (w : world) :
  result_of (check_pass username passwd debug) w = Return true
  <-> exists rows r,
        db w = Available rows
        /\ find_user username rows = Some r
        /\ In r rows
        /\ eligible r
        /\ matches_identifier (strip username) r
        /\ user.passwd_hash_algo r = lit "pbkdf2"
        /\ derived_key_hex passwd (user.salt r) = user.passwd r.
Proof.
  rewrite check_pass_result. unfold check_pass_outcome, verdict. split.
  - destruct (db w) as [rows | e]; [|discriminate].
    destruct (find_user username rows) as [r|] eqn:F; [|discriminate].
    intros E; injection E as E. apply andb_true_iff in E as [Ea Eh].
    apply str_eqb_eq in Ea, Eh.
    destruct (find_user_Some username rows r F) as [Hin Q].
    apply user_query_true in Q as [Hm He].
    exists rows, r. auto 10.
  - intros (rows & r & Hdb & F & _ & _ & _ & Ha & Hh).
    rewrite Hdb, F, Ha, Hh, !str_eqb_refl. reflexivity.
Qed.

(** X5.  Without [debug], the password reaches the log through the
    result only: two passwords on which the call gives the same result
    leave the same world, log included. *)
Theorem log_depends_on_password_through_result_only
    (username passwd1 passwd2 : str) (w : world) :
  result_of (check_pass username passwd1 false) w
  = result_of (check_pass username passwd2 false) w ->
  world_after (check_pass username passwd1 false) w
  = world_after (check_pass username passwd2 false) w.
Proof.
  rewrite !check_pass_result, !check_pass_world.
  unfold check_pass_outcome, check_pass_log, verdict, hash_log.
  destruct (db w) as [rows | e]; [|reflexivity].
  destruct (find_user username rows) as [r|]; [|reflexivity].
  destruct (str_eqb (user.passwd_hash_algo r) (lit "pbkdf2"));
    [|reflexivity].
  cbn [andb app].
  generalize (str_eqb (derived_key_hex passwd1 (user.salt r)) (user.passwd r)).
  generalize (str_eqb (derived_key_hex passwd2 (user.salt r)) (user.passwd r)).
  intros b2 b1 E. injection E as ->. reflexivity.
Qed.

(** X6.  A call logs a [DEBUG] record exactly when [debug] is set, the
    store answers and the first record the query yields is tagged
    ["pbkdf2"]. *)
Theorem debug_record_logged_iff
    (username passwd : str) (debug : bool) (w : world) :
  existsb (fun rec => negb (not_debug rec))
    (new_log (check_pass username passwd debug) w) = true
  <-> debug = true
      /\ exists rows r,
           db w = Available rows
           /\ find_user username rows = Some r
           /\ user.passwd_hash_algo r = lit "pbkdf2".
Proof.
  rewrite new_log_check_pass. unfold check_pass_log, hash_log.
  destruct (db w) as [rows | e].
  2:{ cbn [existsb not_debug fst negb orb]. split; [discriminate|].
      intros [_ (rows' & r' & Hd & _)]. discriminate. }
  destruct (find_user username rows) as [r|] eqn:F0.
  2:{ cbn [existsb not_debug fst negb orb]. split; [discriminate|].
      intros [_ (rows' & r' & Hd & F & _)].
      injection Hd as <-. rewrite F0 in F. discriminate. }
  destruct (str_eqb (user.passwd_hash_algo r) (lit "pbkdf2")) eqn:A.
  2:{ cbn [existsb not_debug fst negb orb]. split; [discriminate|].
      intros [_ (rows' & r' & Hd & F & Ha)].
      injection Hd as <-. rewrite F0 in F. injection F as <-.
      rewrite Ha, str_eqb_refl in A. discriminate. }
  apply str_eqb_eq in A.
  generalize (derived_key_hex passwd (user.salt r)); intros h.
  generalize (str_eqb h (user.passwd r)); intros c.
  destruct debug, c; cbn [existsb app not_debug fst negb orb].
  - split; [intros _ | reflexivity].
    split; [reflexivity|]. exists rows, r. auto.
  - split; [intros _ | reflexivity].
    split; [reflexivity|]. exists rows, r. auto.
  - split; [discriminate | intros [D _]; discriminate].
  - split; [discriminate | intros [D _]; discriminate].
Qed.

(** X7.  With [debug] set, a call that finds a ["pbkdf2"] record writes
    the stored hash of the record and the derived key of the candidate
    password to the log, whether the password is right or wrong. *)
Theorem debug_logs_stored_hash
    (username passwd : str) (w : world) (rows : list user.row)
    (r : user.row) :
  db w = Available rows ->
  find_user username rows = Some r ->
  user.passwd_hash_algo r = lit "pbkdf2" ->
  In (DEBUG, lit "hash result: " ++ derived_key_hex passwd (user.salt r)
             ++ lit " / expected: " ++ user.passwd r)
     (new_log (check_pass username passwd true) w).
Proof.
  intros Hdb F A. rewrite new_log_check_pass, Hdb.
  unfold check_pass_log, hash_log. rewrite F, A, str_eqb_refl.
  right. right. right. left. reflexivity.
Qed.

(** X8.  A password and the same password followed by U+0000 are
    interchangeable when the password takes fewer than 64 bytes in UTF-8:
    the MAC pads its key with zero bytes, so both derive the same key
    and every call gives the same result for both. *)
Theorem trailing_nul_password_is_equivalent
    (username passwd : str) (debug : bool) (w : world) :
  List.length (encode_utf8 passwd) < 64 ->
  (forall salt, derived_key_hex (passwd ++ [NUL]) salt
                = derived_key_hex passwd salt)
  /\ result_of (check_pass username (passwd ++ [NUL]) debug) w
     = result_of (check_pass username passwd debug) w.
Proof.
  intros L.
  assert (E : forall salt, derived_key_hex (passwd ++ [NUL]) salt
                           = derived_key_hex passwd salt)
    by (intros salt; now apply derived_key_hex_zero_byte).
  split; [exact E|].
  rewrite !check_pass_result. unfold check_pass_outcome, verdict.
  destruct (db w) as [rows | e]; [|reflexivity].
  destruct (find_user username rows) as [r|]; [|reflexivity].
  now rewrite E.
Qed.

(** X9.  A stored hash that is the lowercase hexadecimal text of some
    bytes verifies exactly when the derived key is those bytes: comparing
    the texts is comparing the keys. *)
Theorem hex_comparison_is_key_comparison
    (username passwd : str) (debug : bool) (w : world)
    (rows : list user.row) (r : user.row) (key : bytes) :
  db w = Available rows ->
  find_user username rows = Some r ->
  user.passwd_hash_algo r = lit "pbkdf2" ->
  user.passwd r = hex_lower key ->
  (result_of (check_pass username passwd debug) w = Return true
   <-> pbkdf2_hmac sha256 (encode_utf8 passwd)
         (encode_utf8 (user.salt r)) 10000 50 = key).
Proof.
  intros Hdb F A Hk.
  rewrite check_pass_result, Hdb. unfold check_pass_outcome, verdict.
  rewrite F, A, str_eqb_refl, Hk. cbn [andb]. unfold derived_key_hex.
  generalize (pbkdf2_hmac sha256 (encode_utf8 passwd)
                (encode_utf8 (user.salt r)) 10000 50).
  intros dk. split.
  - intros E. apply hex_lower_injective, str_eqb_eq.
    generalize dependent (str_eqb (hex_lower dk) (hex_lower key)).
    intros c E. now injection E.
  - intros ->. now rewrite str_eqb_refl.
Qed.

(** X10.  [check_gitea_pbkdf2] never raises: the output of [hexlify]
    always decodes as ASCII.  It returns a Boolean, leaves rows, journal
    and cursors as they are, and logs one [DEBUG] record when [debug] is
    set and nothing otherwise. *)
Theorem check_gitea_pbkdf2_never_raises
    (passwd : str) (row : user.row) (debug : bool) (w : world) :
  (exists b, result_of (check_gitea_pbkdf2 passwd row debug) w = Return b)
  /\ db (world_after (check_gitea_pbkdf2 passwd row debug) w) = db w
  /\ journal (world_after (check_gitea_pbkdf2 passwd row debug) w)
     = journal w
  /\ open_cursors (world_after (check_gitea_pbkdf2 passwd row debug) w)
     = open_cursors w
  /\ List.length (new_log (check_gitea_pbkdf2 passwd row debug) w)
     = if debug then 1 else 0.
Proof.
  unfold result_of, world_after, new_log, world_after.
  rewrite check_gitea_pbkdf2_run. cbn [fst snd db journal open_cursors log].
  split; [eauto|]. split; [reflexivity|]. split; [reflexivity|].
  split; [reflexivity|].
  rewrite skipn_app, skipn_all, Nat.sub_diag. unfold hash_log.
  destruct debug; reflexivity.
Qed.

(** X11.  However many authentication requests were served before, the
    rows of the store and the number of open cursors are as at the
    start, every statement submitted since was read-only, the log has
    only grown, and a call gives the result it would have given at the
    start. *)
Theorem serving_is_stateless (w0 w : world) :
  served w0 w ->
  db w = db w0
  /\ open_cursors w = open_cursors w0
  /\ (exists j, journal w = journal w0 ++ j /\ forallb read_only j = true)
  /\ (exists l, log w = log w0 ++ l)
  /\ forall username passwd debug,
       result_of (check_pass username passwd debug) w
       = result_of (check_pass username passwd debug) w0.
Proof.
  induction 1 as [|w u p d _ (Hdb & Hc & (j & Hj & Hr) & (l & Hl) & Hres)].
  - split; [reflexivity|]. split; [reflexivity|].
    split; [exists []; now rewrite app_nil_r|].
    split; [exists []; now rewrite app_nil_r|]. reflexivity.
  - rewrite check_pass_world. cbn [db journal open_cursors log].
    split; [exact Hdb|]. split; [exact Hc|]. split.
    { exists (j ++ [SELECT (user_query (strip u))]).
      rewrite Hj, <- app_assoc. split; [reflexivity|].
      rewrite forallb_app, Hr. reflexivity. }
    split.
    { exists (l ++ check_pass_log u p d (db w)).
      now rewrite Hl, <- app_assoc. }
    intros username passwd debug.
    rewrite <- Hres, !check_pass_result. cbn [db]. reflexivity.
Qed.

(* ================================================================== *)
(** * What reaches the stream under the levels of [main] *)
(* ================================================================== *)

Lemma emitted_at (threshold l : level) (msg : str) :
  emitted (LoggingConfig threshold threshold) (l, msg)
  = (levelno threshold <=? levelno l)%Z.
Proof. unfold emitted. cbn [logger_level handler_level fst]. apply andb_diag. Qed.

(** X12.  Started with [-q] and without [-d], the application writes
    nothing for an authentication request, whether it succeeds, fails or
    the store is down, except the one warning about a record whose hash
    algorithm is unknown. *)
Theorem quiet_mode_shows_only_the_warning
    (a : args.t) (username passwd : str) (w : world) :
  args.debug a = false ->
  args.quiet a = true ->
  stream_output a username passwd w
  = match db w with
    | Unavailable _ => []
    | Available rows =>
        match find_user username rows with
        | None => []
        | Some r =>
            if str_eqb (user.passwd_hash_algo r) (lit "pbkdf2") then []
            else [ (WARNING, lit "Found unknown hashing algo "
                             ++ user.passwd_hash_algo r
                             ++ lit " in database!") ]
        end
    end.
Proof.
  intros D Q. unfold stream_output, main_auth, auth_partial, main_logging.
  rewrite D, Q, new_log_check_pass. unfold check_pass_log, hash_log.
  destruct (db w) as [rows | e].
  2:{ cbn [filter]. now rewrite emitted_at. }
  destruct (find_user username rows) as [r|].
  2:{ cbn [filter]. now rewrite !emitted_at. }
  destruct (str_eqb (user.passwd_hash_algo r) (lit "pbkdf2")).
  2:{ cbn [filter]. now rewrite !emitted_at. }
  generalize (derived_key_hex passwd (user.salt r)); intros h.
  generalize (str_eqb h (user.passwd r)); intros c.
  destruct c; cbn [filter app]; now rewrite !emitted_at.
Qed.

(** X13.  Started with [-d], or without [-q], the application
    suppresses nothing: every record a request hands to the logger
    reaches the stream; [-d] prevails over [-q]. *)
Theorem nothing_suppressed_unless_quiet
    (a : args.t) (username passwd : str) (w : world) :
  args.debug a = true \/ args.quiet a = false ->
  stream_output a username passwd w
  = new_log (main_auth a username passwd) w.
Proof.
  intros H. unfold stream_output. apply filter_all. intros [l msg] Hin.
  unfold main_logging. destruct (args.debug a) eqn:D.
  - rewrite emitted_at. now destruct l.
  - destruct H as [H | Q]; [discriminate|]. rewrite Q, emitted_at.
    destruct l; [exfalso | reflexivity | reflexivity].
    unfold main_auth, auth_partial in Hin.
    rewrite D, new_log_check_pass in Hin.
    unfold check_pass_log, hash_log in Hin.
    destruct (db w) as [rows | e].
    2:{ destruct Hin as [E | []]; discriminate. }
    destruct (find_user username rows) as [r|].
    2:{ destruct Hin as [E | [E | []]]; discriminate. }
    destruct (str_eqb (user.passwd_hash_algo r) (lit "pbkdf2")).
    2:{ destruct Hin as [E | [E | [E | []]]]; discriminate. }
    revert Hin.
    generalize (derived_key_hex passwd (user.salt r)); intros h.
    generalize (str_eqb h (user.passwd r)); intros c Hin.
    destruct c; destruct Hin as [E | [E | [E | [E | []]]]]; discriminate.
Qed.

(* ================================================================== *)
(** * Further instances *)
(* ================================================================== *)

(** Two columns named ["name"]: the value of the second one is kept. *)
Lemma dict_factory_rightmost_column_wins_witness :
  List.length [Column (lit "name"); Column (lit "email"); Column (lit "name")]
  <= List.length [1%Z; 2%Z; 3%Z]
  /\ exists d,
       dict_factory
         [Column (lit "name"); Column (lit "email"); Column (lit "name")]
         [1%Z; 2%Z; 3%Z] = Value d
       /\ dict_get d (lit "name") = Some 3%Z
       /\ dict_getitem d (lit "salt") = Raises KeyError.
Proof.
  assert (L : List.length
                [Column (lit "name"); Column (lit "email"); Column (lit "name")]
              <= List.length [1%Z; 2%Z; 3%Z]) by (cbn; lia).
  split; [exact L|].
  destruct (dict_factory_rightmost_column_wins
              [Column (lit "name"); Column (lit "email"); Column (lit "name")]
              [1%Z; 2%Z; 3%Z] L) as (d & Hd & Hg & Hk).
  exists d. split; [exact Hd|]. split.
  - rewrite Hg. reflexivity.
  - apply Hk. cbn [map col_name In].
    intros [E | [E | [E | []]]]; apply str_eqb_eq in E; discriminate E.
Defined.

(** Distinct columns and one value too many. *)
Lemma dict_factory_distinct_columns_witness :
  NoDup (map col_name [Column (lit "name"); Column (lit "email")])
  /\ List.length [Column (lit "name"); Column (lit "email")]
     <= List.length [1%Z; 2%Z; 3%Z]
  /\ dict_factory [Column (lit "name"); Column (lit "email")]
       [1%Z; 2%Z; 3%Z]
     = Value [(lit "name", 1%Z); (lit "email", 2%Z)].
Proof.
  assert (ND : NoDup (map col_name [Column (lit "name"); Column (lit "email")])).
  { cbn [map col_name]. constructor.
    - intros [E | []]. apply str_eqb_eq in E. discriminate E.
    - constructor; [intros [] | constructor]. }
  assert (L : List.length [Column (lit "name"); Column (lit "email")]
              <= List.length [1%Z; 2%Z; 3%Z]) by (cbn; lia).
  split; [exact ND|]. split; [exact L|].
  exact (dict_factory_distinct_columns
           [Column (lit "name"); Column (lit "email")] [1%Z; 2%Z; 3%Z] ND L).
Defined.

(** Two wrong passwords for [bob]. *)
Lemma log_depends_on_password_through_result_only_witness :
  result_of (check_pass (lit "bob") (lit "one") false)
    (Sample.world_of [Sample.bob])
  = result_of (check_pass (lit "bob") (lit "two") false)
      (Sample.world_of [Sample.bob])
  /\ world_after (check_pass (lit "bob") (lit "one") false)
       (Sample.world_of [Sample.bob])
     = world_after (check_pass (lit "bob") (lit "two") false)
         (Sample.world_of [Sample.bob]).
Proof.
  assert (H : result_of (check_pass (lit "bob") (lit "one") false)
                (Sample.world_of [Sample.bob])
              = result_of (check_pass (lit "bob") (lit "two") false)
                  (Sample.world_of [Sample.bob]))
    by (rewrite !check_pass_result; reflexivity).
  split; [exact H|].
  exact (log_depends_on_password_through_result_only
           (lit "bob") (lit "one") (lit "two")
           (Sample.world_of [Sample.bob]) H).
Defined.

(** A debugging call for [alice]. *)
Lemma debug_logs_stored_hash_witness :
  db (Sample.world_of [Sample.alice]) = Available [Sample.alice]
  /\ find_user (lit "alice") [Sample.alice] = Some Sample.alice
  /\ user.passwd_hash_algo Sample.alice = lit "pbkdf2"
  /\ In (DEBUG, lit "hash result: "
                ++ derived_key_hex (lit "secret") (user.salt Sample.alice)
                ++ lit " / expected: " ++ user.passwd Sample.alice)
        (new_log (check_pass (lit "alice") (lit "secret") true)
           (Sample.world_of [Sample.alice])).
Proof.
  split; [reflexivity|]. split; [reflexivity|]. split; [reflexivity|].
  exact (debug_logs_stored_hash (lit "alice") (lit "secret")
           (Sample.world_of [Sample.alice]) [Sample.alice] Sample.alice
           eq_refl eq_refl eq_refl).
Defined.

(** The password ["secret"] takes six bytes. *)
Lemma trailing_nul_password_is_equivalent_witness :
  List.length (encode_utf8 (lit "secret")) < 64
  /\ result_of (check_pass (lit "alice") (lit "secret" ++ [NUL]) false)
       (Sample.world_of [Sample.alice])
     = result_of (check_pass (lit "alice") (lit "secret") false)
         (Sample.world_of [Sample.alice]).
Proof.
  assert (L : List.length (encode_utf8 (lit "secret")) < 64)
    by (vm_compute; lia).
  split; [exact L|].
  exact (proj2 (trailing_nul_password_is_equivalent
                  (lit "alice") (lit "secret") false
                  (Sample.world_of [Sample.alice]) L)).
Defined.

(** The stored hash of [alice] stands for fifty zero bytes. *)
Lemma hex_comparison_is_key_comparison_witness :
  db (Sample.world_of [Sample.alice]) = Available [Sample.alice]
  /\ find_user (lit "alice") [Sample.alice] = Some Sample.alice
  /\ user.passwd_hash_algo Sample.alice = lit "pbkdf2"
  /\ user.passwd Sample.alice = hex_lower (repeat x00 50)
  /\ (result_of (check_pass (lit "alice") (lit "secret") false)
        (Sample.world_of [Sample.alice]) = Return true
      <-> pbkdf2_hmac sha256 (encode_utf8 (lit "secret"))
            (encode_utf8 (user.salt Sample.alice)) 10000 50
          = repeat x00 50).
Proof.
  assert (K : user.passwd Sample.alice = hex_lower (repeat x00 50))
    by (apply str_eqb_eq; vm_compute; reflexivity).
  split; [reflexivity|]. split; [reflexivity|]. split; [reflexivity|].
  split; [exact K|].
  exact (hex_comparison_is_key_comparison
           (lit "alice") (lit "secret") false
           (Sample.world_of [Sample.alice]) [Sample.alice] Sample.alice
           (repeat x00 50) eq_refl eq_refl eq_refl K).
Defined.

(** The world after one request for [bob]. *)
Lemma serving_is_stateless_witness :
  served (Sample.world_of [Sample.alice; Sample.bob])
    (world_after (check_pass (lit "bob") (lit "secret") true)
       (Sample.world_of [Sample.alice; Sample.bob]))
  /\ db (world_after (check_pass (lit "bob") (lit "secret") true)
           (Sample.world_of [Sample.alice; Sample.bob]))
     = db (Sample.world_of [Sample.alice; Sample.bob]).
Proof.
  assert (S : served (Sample.world_of [Sample.alice; Sample.bob])
                (world_after (check_pass (lit "bob") (lit "secret") true)
                   (Sample.world_of [Sample.alice; Sample.bob])))
    by (apply served_call, served_start).
  split; [exact S|].
  exact (proj1 (serving_is_stateless _ _ S)).
Defined.

(** The application started with [-q]. *)
Lemma quiet_mode_shows_only_the_warning_witness :
  args.debug (args.Args (lit "gitea.db") false true (lit "127.0.0.1")
                (inl 9090%Z)) = false
  /\ args.quiet (args.Args (lit "gitea.db") false true (lit "127.0.0.1")
                   (inl 9090%Z)) = true
  /\ stream_output
       (args.Args (lit "gitea.db") false true (lit "127.0.0.1") (inl 9090%Z))
       (lit "bob") (lit "secret") (Sample.world_of [Sample.bob])
     = [ (WARNING, lit "Found unknown hashing algo " ++ lit "argon2"
                   ++ lit " in database!") ].
Proof.
  split; [reflexivity|]. split; [reflexivity|].
  rewrite (quiet_mode_shows_only_the_warning
             (args.Args (lit "gitea.db") false true (lit "127.0.0.1")
                (inl 9090%Z))
             (lit "bob") (lit "secret") (Sample.world_of [Sample.bob])
             eq_refl eq_refl).
  reflexivity.
Defined.

(** The application started without flags. *)
Lemma nothing_suppressed_unless_quiet_witness :
  (args.debug (args.Args (lit "gitea.db") false false (lit "127.0.0.1")
                 (inl 9090%Z)) = true
   \/ args.quiet (args.Args (lit "gitea.db") false false (lit "127.0.0.1")
                    (inl 9090%Z)) = false)
  /\ stream_output
       (args.Args (lit "gitea.db") false false (lit "127.0.0.1") (inl 9090%Z))
       (lit "bob") (lit "secret") (Sample.world_of [Sample.bob])
     = new_log
         (main_auth
            (args.Args (lit "gitea.db") false false (lit "127.0.0.1")
               (inl 9090%Z)) (lit "bob") (lit "secret"))
         (Sample.world_of [Sample.bob]).
Proof.
  split; [right; reflexivity|].
  exact (nothing_suppressed_unless_quiet
           (args.Args (lit "gitea.db") false false (lit "127.0.0.1")
              (inl 9090%Z))
           (lit "bob") (lit "secret") (Sample.world_of [Sample.bob])
           (or_intror eq_refl)).
Defined.
